(** * module_reloader: live-reload registry

    A shallow embedding of [module_reloader.py] and the properties of its
    registry, interceptor, staleness check and reload functions.

    Conventions of the embedding.
    - The Python dict [loaded_modules] keeps insertion order, and the order
      decides in which order stale units are reported and reloaded: it is an
      association list with the dict's operations.
    - [sys.modules] and the file system are finite maps; order plays no role.
    - [time.time()] and [os.path.getmtime] return floats that the program
      only compares with [>]; timestamps are integers (ticks of the clock).
      Each call of [time.time()] consumes one reading of the clock.
    - Python exceptions are values; a computation returns the world it
      leaves behind together with its result or the exception it raised,
      since mutations made before a raise stay. *)

From Stdlib Require Import ZArith Ascii String List Lia.
From stdpp Require Import base option list strings gmap.

Open Scope string_scope.
Open Scope list_scope.
Open Scope Z_scope.

(** ** Insertion-ordered dictionaries *)

Module Dict.
Section dict.
Context {V : Type}.

(** [d.get(k)] *)
Fixpoint get (k : string) (d : list (string * V)) : option V :=
  match d with
  | [] => None
  | (k', v) :: d' => if decide (k = k') then Some v else get k d'
  end.

(** [k in d] *)
Definition contains (k : string) (d : list (string * V)) : bool :=
  match get k d with Some _ => true | None => false end.

(** [d[k] = v]: a present key keeps its position, a new key goes last. *)
Fixpoint set (k : string) (v : V) (d : list (string * V)) : list (string * V) :=
  match d with
  | [] => [(k, v)]
  | (k', v') :: d' =>
      if decide (k = k') then (k', v) :: d' else (k', v') :: set k v d'
  end.

(** In-place mutation of the object stored under [k] (no effect when
    [k] is absent; the program guards every such access). *)
Fixpoint alter (f : V → V) (k : string) (d : list (string * V)) : list (string * V) :=
  match d with
  | [] => []
  | (k', v') :: d' =>
      if decide (k = k') then (k', f v') :: d' else (k', v') :: alter f k d'
  end.

(** [list(d)]: the keys, in insertion order. *)
Definition keys (d : list (string * V)) : list string := d.*1.

(** The number of entries stored under a key. *)
Definition entries (k : string) (d : list (string * V)) : nat :=
  length (filter (λ e, e.1 = k) d).

(** A Python dict holds each key once. *)
Definition wf (d : list (string * V)) : Prop := NoDup (keys d).
End dict.
End Dict.

(** ** Data model *)

(** The part of [importlib.machinery.ModuleSpec] the program reads:
    [spec.name] and [spec.origin] (a string or [None]). *)
Record ModuleSpec := {
  spec_name : string;
  spec_origin : option string
}.

(** [@dataclass LoadedModuleInfo]. *)
Record LoadedModuleInfo := {
  module_name : string;
  path : string;
  load_time : Z
}.

Definition with_load_time (t : Z) (info : LoadedModuleInfo) : LoadedModuleInfo :=
  {| module_name := module_name info; path := path info; load_time := t |}.

(** A module object, as far as [get_stale_modules] looks at it: its
    [__file__] attribute, which may be missing (built-in modules), [None],
    or a string. *)
Record PyModule := {
  mod_file : option (option string)
}.

Inductive exn :=
| AssertionError
| KeyError (key : string)
| AttributeError (attr : string)
| FileNotFoundError (file : string)
| ModuleNotFoundError (name : string)
| ImportError (name : string)
| FinderError (reason : string)
| ExecError (name reason : string).

Inductive outcome (A : Type) :=
| Returns (a : A)
| Raises (e : exn).
Arguments Returns {A} a.
Arguments Raises {A} e.

(** An entry of [sys.meta_path] behind the interceptor: an object without
    a [find_spec] attribute, or one whose [find_spec(fullname, path, target)]
    answers with a spec, with [None], or raises. *)
Inductive Finder :=
| NoFindSpec
| HasFindSpec (find_spec : string → outcome (option ModuleSpec)).

(** Python truthiness of an optional string, as tested by [assert s] and
    [if s:]: [None] and the empty string are falsy. The result is the
    string itself when it is truthy. *)
Definition truthy (s : option string) : option string :=
  match s with
  | Some s => if decide (s = "") then None else Some s
  | None => None
  end.

(** ** The process state *)

Record World := {
  (** the global dict of line 20 *)
  loaded_modules : list (string * LoadedModuleInfo);
  (** [sys.modules] *)
  sys_modules : gmap string PyModule;
  (** [sys.meta_path[1:]], the resolvers behind the interceptor *)
  meta_path_tail : list Finder;
  (** the file system: modification time of each existing file *)
  mtimes : gmap string Z;
  (** the execution engine: what running a unit's top-level code does,
      [None] when it completes, [Some reason] when it raises *)
  top_level : string → option string;
  (** the wall clock: the reading of the n-th call of [time.time()] *)
  clock : nat → Z;
  ticks : nat;
  (** units whose top-level code has been re-executed to completion *)
  reexecuted : list string
}.

Definition set_loaded_modules (d : list (string * LoadedModuleInfo)) (w : World) : World :=
  {| loaded_modules := d; sys_modules := sys_modules w;
     meta_path_tail := meta_path_tail w; mtimes := mtimes w;
     top_level := top_level w; clock := clock w; ticks := ticks w;
     reexecuted := reexecuted w |}.

Definition set_ticks (n : nat) (w : World) : World :=
  {| loaded_modules := loaded_modules w; sys_modules := sys_modules w;
     meta_path_tail := meta_path_tail w; mtimes := mtimes w;
     top_level := top_level w; clock := clock w; ticks := n;
     reexecuted := reexecuted w |}.

Definition set_reexecuted (l : list string) (w : World) : World :=
  {| loaded_modules := loaded_modules w; sys_modules := sys_modules w;
     meta_path_tail := meta_path_tail w; mtimes := mtimes w;
     top_level := top_level w; clock := clock w; ticks := ticks w;
     reexecuted := l |}.

(** ** Computations: state and exceptions *)

Definition Py (A : Type) : Type := World → outcome A * World.

Definition ret {A} (a : A) : Py A := λ w, (Returns a, w).

Definition raise {A} (e : exn) : Py A := λ w, (Raises e, w).

Definition bind {A B} (c : Py A) (k : A → Py B) : Py B :=
  λ w, match c w with
       | (Returns a, w') => k a w'
       | (Raises e, w') => (Raises e, w')
       end.

Declare Scope py_scope.
Delimit Scope py_scope with py.
Notation "x <- c ;; k" := (bind c (λ x, k))
  (at level 100, c at next level, right associativity) : py_scope.
Notation "c ;;; k" := (bind c (λ _, k))
  (at level 100, right associativity) : py_scope.
Open Scope py_scope.

(** [for x in l: body(x)] *)
Fixpoint for_each {A} (body : A → Py unit) (l : list A) : Py unit :=
  match l with
  | [] => ret tt
  | x :: l' => body x ;;; for_each body l'
  end.

(** ** The environment's primitives *)

(** Reading and mutating the global [loaded_modules]. *)
Definition read_loaded_modules : Py (list (string * LoadedModuleInfo)) :=
  λ w, (Returns (loaded_modules w), w).

Definition modify_loaded_modules
    (f : list (string * LoadedModuleInfo) → list (string * LoadedModuleInfo))
  : Py unit :=
  λ w, (Returns tt, set_loaded_modules (f (loaded_modules w)) w).

(** [time.time()] *)
Definition time_time : Py Z :=
  λ w, (Returns (clock w (ticks w)), set_ticks (S (ticks w)) w).

(** [name in sys.modules] *)
Definition sys_modules_contains (name : string) : Py bool :=
  λ w, (Returns (bool_decide (is_Some (sys_modules w !! name))), w).

(** [sys.modules[name]] *)
Definition sys_modules_getitem (name : string) : Py PyModule :=
  λ w, match sys_modules w !! name with
       | Some m => (Returns m, w)
       | None => (Raises (KeyError name), w)
       end.

(** [module.__file__] *)
Definition getattr_file (m : PyModule) : Py (option string) :=
  match mod_file m with
  | Some f => ret f
  | None => raise (AttributeError "__file__")
  end.

(** [os.path.getmtime(file)] *)
Definition getmtime (file : string) : Py Z :=
  λ w, match mtimes w !! file with
       | Some t => (Returns t, w)
       | None => (Raises (FileNotFoundError file), w)
       end.

(** [sys.meta_path[1:]] *)
Definition read_meta_path_tail : Py (list Finder) :=
  λ w, (Returns (meta_path_tail w), w).

(** Running a unit's top-level code. *)
Definition exec_module (name : string) : Py unit :=
  λ w, match top_level w name with
       | None => (Returns tt, set_reexecuted (reexecuted w ++ [name]) w)
       | Some reason => (Raises (ExecError name reason), w)
       end.

(** ** The program *)

(** Lines 23-31. The assertion runs with the interpreter's default
    settings (assertions enabled). *)
Definition track_module (spec : ModuleSpec) : Py unit :=
  d <- read_loaded_modules ;;
  if Dict.contains (spec_name spec) d then ret tt
  else
    match truthy (spec_origin spec) with
    | None => raise AssertionError
    | Some origin =>
        t <- time_time ;;
        modify_loaded_modules
          (Dict.set (spec_name spec)
             {| module_name := spec_name spec; path := origin;
                load_time := t |})
    end.

(** Lines 34-38. The right-hand side [time.time()] is evaluated before
    the record is fetched and mutated. *)
Definition update_module_load_time (name : string) : Py unit :=
  d <- read_loaded_modules ;;
  if Dict.contains name d then
    t <- time_time ;;
    modify_loaded_modules (Dict.alter (with_load_time t) name)
  else ret tt.

(** Lines 40-41. The function returns the object bound to the global
    name, not a new dict. A reference to a dict is either that object, whose
    contents are whatever the registry holds when the reference is read, or
    a dict of its own, which no operation of the program can reach. *)
Inductive dict_ref :=
| LoadedModulesObject
| OwnDict (contents : list (string * LoadedModuleInfo)).

Definition deref (r : dict_ref) (w : World) : list (string * LoadedModuleInfo) :=
  match r with
  | LoadedModulesObject => loaded_modules w
  | OwnDict d => d
  end.

Definition get_loaded_modules : Py dict_ref := ret LoadedModulesObject.

(** Lines 66-74: the loop over [sys.meta_path[1:]]. The arguments [path]
    and [target] are handed on as they are and play no role here. *)
Fixpoint find_spec_loop (finders : list Finder) (fullname : string)
  : Py (option ModuleSpec) :=
  match finders with
  | [] => ret None
  | NoFindSpec :: rest => find_spec_loop rest fullname
  | HasFindSpec f :: rest =>
      match f fullname with
      | Raises e => raise e
      | Returns None => find_spec_loop rest fullname
      | Returns (Some spec) => track_module spec ;;; ret (Some spec)
      end
  end.

Definition find_spec (fullname : string) : Py (option ModuleSpec) :=
  finders <- read_meta_path_tail ;;
  find_spec_loop finders fullname.

(** [name.rpartition('.')[0]]: what stands before the last dot of [name];
    the empty string when [name] has no dot. *)
Fixpoint before_last_dot (s : string) : option string :=
  match s with
  | EmptyString => None
  | String c rest =>
      match before_last_dot rest with
      | Some head => Some (String c head)
      | None => if Ascii.eqb c "."%char then Some EmptyString else None
      end
  end.

Definition parent_name (name : string) : string :=
  default "" (before_last_dot name).

(** The first check of [importlib.reload]: a unit with a dotted name is
    reloaded only while its parent package is in [sys.modules]. *)
Definition parent_ready (w : World) (name : string) : bool :=
  if decide (parent_name name = "") then true
  else bool_decide (is_Some (sys_modules w !! parent_name name)).

(** The rest of [importlib.reload]. As in CPython, the unit is resolved
    again through [sys.meta_path], whose first entry is the interceptor
    installed on line 78 (it is handed the module as [target]); no spec is a
    [ModuleNotFoundError]; a spec for another name than the module's is an
    [ImportError]; then the unit's top-level code runs in the existing
    module object. *)
Definition resolve_and_exec (name : string) : Py unit :=
  found <- find_spec name ;;
  match found with
  | None => raise (ModuleNotFoundError name)
  | Some spec =>
      if decide (spec_name spec = name) then exec_module name
      else raise (ImportError (spec_name spec))
  end.

(** [importlib.reload(sys.modules[name])], the execution engine, after
    CPython's [importlib/__init__.py] and [importlib/_bootstrap.py]: the
    parent check ([ImportError] when the parent of a dotted name is not
    loaded), then the resolution and the execution.

    What the embedding takes for granted about the process it runs in:
    every handle is registered under its own name and under no other; a
    loaded parent is a package; the resolvers report for a loaded unit the
    location its handle already has, so that the engine's resetting of
    [__file__] to the spec's origin changes nothing and [sys.modules] is
    left as it is; entries of [sys.meta_path] without [find_spec] have no
    answer of their own (CPython 3.12 passes them over; 3.11 would still ask
    them through the deprecated [find_module], a path on which the
    interceptor is not involved); and the re-executed code neither imports
    units that are not loaded yet nor writes to the registry. The
    properties below are stated so that they do not lean on these
    assumptions wherever that can be avoided. *)
Definition importlib_reload (name : string) : Py unit :=
  λ w, if parent_ready w name then resolve_and_exec name w
       else raise (ImportError (parent_name name)) w.

(** Lines 44-48. *)
Definition reload_module (name : string) : Py unit :=
  live <- sys_modules_contains name ;;
  if (live : bool) then
    importlib_reload name ;;;
    update_module_load_time name
  else ret tt.

(** Lines 50-58: the loop over [loaded_modules.items()], with the list
    [stale_modules] built so far. *)
Fixpoint stale_loop (items : list (string * LoadedModuleInfo))
    (stale_modules : list string) : Py (list string) :=
  match items with
  | [] => ret stale_modules
  | (name, info) :: rest =>
      m <- sys_modules_getitem name ;;
      module_file <- getattr_file m ;;
      match truthy module_file with
      | Some file =>
          mod_time <- getmtime file ;;
          if mod_time >? load_time info
          then stale_loop rest (stale_modules ++ [name])
          else stale_loop rest stale_modules
      | None => stale_loop rest stale_modules
      end
  end.

Definition get_stale_modules : Py (list string) :=
  d <- read_loaded_modules ;;
  stale_loop d [].

(** Lines 61-63. *)
Definition reload_stale_modules : Py unit :=
  stale <- get_stale_modules ;;
  for_each reload_module stale.

(** ** Vocabulary of the properties *)

(** What [sys.meta_path[1:]] answers when its finders are asked in order
    with no interceptor in front: the first answer that is not [None]. The
    interceptor's properties are stated against it. *)
Fixpoint resolve (finders : list Finder) (fullname : string)
  : outcome (option ModuleSpec) :=
  match finders with
  | [] => Returns None
  | NoFindSpec :: rest => resolve rest fullname
  | HasFindSpec f :: rest =>
      match f fullname with
      | Raises e => Raises e
      | Returns None => resolve rest fullname
      | Returns (Some spec) => Returns (Some spec)
      end
  end.

(** Everything of the world but the registry, the number of clock readings
    taken and the log of re-executions. *)
Definition same_env (w w' : World) : Prop :=
  sys_modules w' = sys_modules w ∧ meta_path_tail w' = meta_path_tail w ∧
  mtimes w' = mtimes w ∧ top_level w' = top_level w ∧ clock w' = clock w.

(** Registry [d'] keeps every record of [d] as it is. *)
Definition keeps_records (d d' : list (string * LoadedModuleInfo)) : Prop :=
  ∀ k info, Dict.get k d = Some info → Dict.get k d' = Some info.

(** The entry [track_module] creates for a spec, stamped with the clock's
    current reading. *)
Definition new_record (spec : ModuleSpec) (origin : string) (w : World)
  : string * LoadedModuleInfo :=
  (spec_name spec,
   {| module_name := spec_name spec; path := origin;
      load_time := clock w (ticks w) |}).

(** What the body of the loop of [get_stale_modules] does with one entry:
    it raises, or it decides whether the name is appended. *)
Definition verdict (w : World) (name : string) (info : LoadedModuleInfo)
  : outcome bool :=
  match sys_modules w !! name with
  | None => Raises (KeyError name)
  | Some m =>
      match mod_file m with
      | None => Raises (AttributeError "__file__")
      | Some module_file =>
          match truthy module_file with
          | None => Returns false
          | Some file =>
              match mtimes w !! file with
              | None => Raises (FileNotFoundError file)
              | Some mod_time => Returns (mod_time >? load_time info)
              end
          end
      end
  end.

(** Every entry of the registry can be scanned without an exception. *)
Definition scannable (w : World) : Prop :=
  Forall (λ e, ∃ b, verdict w e.1 e.2 = Returns b) (loaded_modules w).

(** The loop body appends the entry's name. *)
Definition found_stale (w : World) (e : string * LoadedModuleInfo) : bool :=
  match verdict w e.1 e.2 with
  | Returns true => true
  | _ => false
  end.

(** The names among [items] whose entry is found stale, in order. *)
Definition stale_names (w : World) (items : list (string * LoadedModuleInfo))
  : list string :=
  (filter (λ e, found_stale w e = true) items).*1.

(** The unit's handle is gone from [sys.modules], or the file its handle
    names is gone from the file system. *)
Definition vanished (w : World) (name : string) : Prop :=
  sys_modules w !! name = None ∨
  ∃ m file, sys_modules w !! name = Some m ∧
            mod_file m = Some (Some file) ∧ file ≠ "" ∧
            mtimes w !! file = None.

(** The modification time of the file named by the [__file__] of the
    unit's handle, when there is a handle, a truthy [__file__] and a file. *)
Definition mtime_of (w : World) (name : string) : option Z :=
  m ← sys_modules w !! name;
  module_file ← mod_file m;
  file ← truthy module_file;
  mtimes w !! file.

(** ** Statements the program is checked against *)

(** Fail-open tracking: every successful resolution without a source
    location still returns its result through the interceptor, and the
    registry stays as it is. *)
Definition fail_open_tracking : Prop :=
  ∀ w fullname spec,
    resolve (meta_path_tail w) fullname = Returns (Some spec) →
    spec_origin spec = None →
    ∃ w', find_spec fullname w = (Returns (Some spec), w') ∧
          loaded_modules w' = loaded_modules w.

(** Silent skipping: an entry whose handle or file has vanished does not
    keep [get_stale_modules] from returning, and is not reported. *)
Definition skips_vanished : Prop :=
  ∀ w name info,
    (name, info) ∈ loaded_modules w →
    vanished w name →
    ∃ l, get_stale_modules w = (Returns l, w) ∧ name ∉ l.


(** Snapshot: what [get_loaded_modules] returned shows, after a later
    insertion or refresh, the content it showed at the call. *)
Definition returns_snapshot : Prop :=
  ∀ w r w0 spec name,
    get_loaded_modules w = (Returns r, w0) →
    deref r (track_module spec w0).2 = deref r w ∧
    deref r (update_module_load_time name w0).2 = deref r w.

(** Rejection of a malformed identity: tracking a spec whose name is the
    empty string leaves the registry as it is. *)
Definition rejects_empty_identity : Prop :=
  ∀ w spec,
    spec_name spec = "" →
    loaded_modules (track_module spec w).2 = loaded_modules w.


(** Reload clears staleness: after a reload of a reported unit that
    returns, with the file left alone, the next check does not report the
    unit. *)
Definition reload_clears_stale : Prop :=
  ∀ w l name w1 l1,
    get_stale_modules w = (Returns l, w) →
    name ∈ l →
    reload_module name w = (Returns tt, w1) →
    get_stale_modules w1 = (Returns l1, w1) →
    name ∉ l1.

(** ** Sample worlds *)

(** The process right after the interceptor was installed: nothing
    tracked, nothing loaded, no resolver behind the interceptor. *)
Definition empty_world : World :=
  {| loaded_modules := []; sys_modules := ∅; meta_path_tail := [];
     mtimes := ∅; top_level := λ _, None; clock := λ n, Z.of_nat n;
     ticks := 0; reexecuted := [] |}.

(** Specs for the unit [pkg.mod] (found at two places) and for a unit with
    the empty name. *)
Definition sample_spec : ModuleSpec :=
  {| spec_name := "pkg.mod"; spec_origin := Some "/tmp/pkg/mod.src" |}.

Definition sample_spec_moved : ModuleSpec :=
  {| spec_name := "pkg.mod"; spec_origin := Some "/elsewhere/mod.src" |}.

Definition nameless_spec : ModuleSpec :=
  {| spec_name := ""; spec_origin := Some "/tmp/nameless.src" |}.

(** A virtual unit: the resolver answers with a spec that has no origin. *)
Definition virtual_spec : ModuleSpec :=
  {| spec_name := "virtual"; spec_origin := None |}.

Definition virtual_world : World :=
  {| loaded_modules := []; sys_modules := ∅;
     meta_path_tail := [HasFindSpec (λ _, Returns (Some virtual_spec))];
     mtimes := ∅; top_level := λ _, None; clock := λ n, Z.of_nat n;
     ticks := 0; reexecuted := [] |}.

(** A resolver that knows the unit [pkg.mod] and nothing else. *)
Definition sample_finder (fullname : string) : outcome (option ModuleSpec) :=
  if decide (fullname = "pkg.mod") then Returns (Some sample_spec)
  else Returns None.

Definition sample_info : LoadedModuleInfo :=
  {| module_name := "pkg.mod"; path := "/tmp/pkg/mod.src"; load_time := 100 |}.

Definition sample_module : PyModule :=
  {| mod_file := Some (Some "/tmp/pkg/mod.src") |}.

(** The unit [pkg.mod], loaded from [/tmp/pkg/mod.src] at time 100; its
    file was last modified at [mtime]; the clock shows 200 and later. *)
Definition scenario_world (mtime : Z) : World :=
  {| loaded_modules := [("pkg.mod", sample_info)];
     sys_modules := {[ "pkg.mod" := sample_module ]};
     meta_path_tail := [NoFindSpec; HasFindSpec sample_finder];
     mtimes := {[ "/tmp/pkg/mod.src" := mtime ]};
     top_level := λ _, None;
     clock := λ n, 200 + Z.of_nat n;
     ticks := 0; reexecuted := [] |}.

(** The same unit after something took it out of [sys.modules]. *)
Definition unloaded_world : World :=
  {| loaded_modules := [("pkg.mod", sample_info)];
     sys_modules := ∅;
     meta_path_tail := [NoFindSpec; HasFindSpec sample_finder];
     mtimes := {[ "/tmp/pkg/mod.src" := 150 ]};
     top_level := λ _, None;
     clock := λ n, 200 + Z.of_nat n;
     ticks := 0; reexecuted := [] |}.

(** The same unit after its file was deleted. *)
Definition deleted_world : World :=
  {| loaded_modules := [("pkg.mod", sample_info)];
     sys_modules := {[ "pkg.mod" := sample_module ]};
     meta_path_tail := [NoFindSpec; HasFindSpec sample_finder];
     mtimes := ∅;
     top_level := λ _, None;
     clock := λ n, 200 + Z.of_nat n;
     ticks := 0; reexecuted := [] |}.


(** A resolver that finds every unit under [/src/]. *)
Definition source_finder (fullname : string) : outcome (option ModuleSpec) :=
  Returns (Some {| spec_name := fullname;
                   spec_origin := Some ("/src/" +:+ fullname) |}).

(** Two tracked units, both loaded at time 100 and modified at time 150;
    the top-level code of [a] raises, that of [b] completes. *)
Definition two_units_world : World :=
  {| loaded_modules :=
       [("a", {| module_name := "a"; path := "/src/a"; load_time := 100 |});
        ("b", {| module_name := "b"; path := "/src/b"; load_time := 100 |})];
     sys_modules :=
       {[ "a" := {| mod_file := Some (Some "/src/a") |};
          "b" := {| mod_file := Some (Some "/src/b") |} ]};
     meta_path_tail := [HasFindSpec source_finder];
     mtimes := {[ "/src/a" := 150; "/src/b" := 150 ]};
     top_level := λ name, if decide (name = "a") then Some "boom" else None;
     clock := λ n, 200 + Z.of_nat n;
     ticks := 0; reexecuted := [] |}.


(** A top-level unit [plugin], loaded from [/tmp/plugin.src] at time 100;
    its file was last modified at [mtime]; the clock shows 200 and later. *)
Definition plugin_spec : ModuleSpec :=
  {| spec_name := "plugin"; spec_origin := Some "/tmp/plugin.src" |}.

Definition plugin_finder (fullname : string) : outcome (option ModuleSpec) :=
  if decide (fullname = "plugin") then Returns (Some plugin_spec)
  else Returns None.

Definition plugin_info : LoadedModuleInfo :=
  {| module_name := "plugin"; path := "/tmp/plugin.src"; load_time := 100 |}.

Definition plugin_module : PyModule :=
  {| mod_file := Some (Some "/tmp/plugin.src") |}.

Definition plugin_world (mtime : Z) : World :=
  {| loaded_modules := [("plugin", plugin_info)];
     sys_modules := {[ "plugin" := plugin_module ]};
     meta_path_tail := [NoFindSpec; HasFindSpec plugin_finder];
     mtimes := {[ "/tmp/plugin.src" := mtime ]};
     top_level := λ _, None;
     clock := λ n, 200 + Z.of_nat n;
     ticks := 0; reexecuted := [] |}.

(** The file of [plugin] carries a modification time that the clock has
    not reached yet (a file copied from a machine whose clock is ahead, or
    touched with a later date). *)
Definition future_world : World := plugin_world 300.

(** The unit [plugin] was imported before the interceptor was installed:
    it is live in [sys.modules] and absent from the registry. *)
Definition plugin_early_world : World :=
  {| loaded_modules := [];
     sys_modules := {[ "plugin" := plugin_module ]};
     meta_path_tail := [NoFindSpec; HasFindSpec plugin_finder];
     mtimes := {[ "/tmp/plugin.src" := 150 ]};
     top_level := λ _, None;
     clock := λ n, 200 + Z.of_nat n;
     ticks := 0; reexecuted := [] |}.


(** A built-in unit without file, tracked before the unit [plugin], whose
    file is newer than its load time. *)
Definition mixed_world : World :=
  {| loaded_modules :=
       [("builtin", {| module_name := "builtin"; path := "built-in";
                       load_time := 100 |});
        ("plugin", plugin_info)];
     sys_modules :=
       {[ "builtin" := {| mod_file := Some None |};
          "plugin" := plugin_module ]};
     meta_path_tail := [NoFindSpec; HasFindSpec plugin_finder];
     mtimes := {[ "/tmp/plugin.src" := 150 ]};
     top_level := λ _, None;
     clock := λ n, 200 + Z.of_nat n;
     ticks := 0; reexecuted := [] |}.

(** ** Tactics *)

Ltac py_unfold :=
  unfold bind, ret, raise, read_loaded_modules, modify_loaded_modules,
    time_time, sys_modules_contains, sys_modules_getitem, getattr_file,
    getmtime, read_meta_path_tail, exec_module in *.

Ltac solve_wf :=
  unfold Dict.wf, Dict.keys; simpl;
  repeat (apply NoDup_cons_2;
          [repeat (apply not_elem_of_cons; split; [discriminate|]);
           apply not_elem_of_nil|]);
  apply NoDup_nil_2.

(** ** The runs of a process *)

(** The registry is in order: each name is held once, each record carries
    the name it is stored under and a non-empty path, and each load time is
    a reading the clock has given already. *)
Definition registry_ok (w : World) : Prop :=
  Dict.wf (loaded_modules w) ∧
  ∀ k info, Dict.get k (loaded_modules w) = Some info →
    module_name info = k ∧ path info ≠ "" ∧
    ∃ n, (n < ticks w)%nat ∧ load_time info = clock w n.

(** From [w] to [w'] the registry has only moved forward: the clock is the
    same and no reading was taken back; the names of [w] are still there,
    in the same order and before any new one; a record of [w] has kept its
    name and path, and its load time is the old one or a reading taken in
    between; and an orderly registry has stayed so. *)
Definition advances (w w' : World) : Prop :=
  clock w' = clock w ∧ (ticks w ≤ ticks w')%nat ∧
  Dict.keys (loaded_modules w) `prefix_of` Dict.keys (loaded_modules w') ∧
  (∀ k info, Dict.get k (loaded_modules w) = Some info →
     ∃ info', Dict.get k (loaded_modules w') = Some info' ∧
       module_name info' = module_name info ∧ path info' = path info ∧
       (load_time info' = load_time info ∨
        ∃ n, (ticks w ≤ n < ticks w')%nat ∧ load_time info' = clock w n)) ∧
  (registry_ok w → registry_ok w').

(** Whatever a computation does, the registry only moves forward. *)
Definition steady {A} (c : Py A) : Prop :=
  ∀ w r w', c w = (r, w') → advances w w'.

(** The functions a user of the module, or the import system, can call. *)
Inductive call :=
| CallTrackModule (spec : ModuleSpec)
| CallUpdateModuleLoadTime (name : string)
| CallGetLoadedModules
| CallReloadModule (name : string)
| CallGetStaleModules
| CallReloadStaleModules
| CallFindSpec (fullname : string).

(** The world a call leaves, whether it returns or raises. *)
Definition perform (c : call) (w : World) : World :=
  match c with
  | CallTrackModule spec => (track_module spec w).2
  | CallUpdateModuleLoadTime name => (update_module_load_time name w).2
  | CallGetLoadedModules => (get_loaded_modules w).2
  | CallReloadModule name => (reload_module name w).2
  | CallGetStaleModules => (get_stale_modules w).2
  | CallReloadStaleModules => (reload_stale_modules w).2
  | CallFindSpec fullname => (find_spec fullname w).2
  end.

(** Between two calls the rest of the process may load and unload units,
    change the resolvers, touch files and read the clock; it does not write
    to the registry and cannot turn the clock into another one. *)
Definition env_step (w w' : World) : Prop :=
  loaded_modules w' = loaded_modules w ∧ clock w' = clock w ∧
  (ticks w ≤ ticks w')%nat.

Inductive step : World → World → Prop :=
| step_call c w : step w (perform c w)
| step_env w w' : env_step w w' → step w w'.

(** The states a process can be in: it starts with the empty registry of
    line 20. *)
Definition reachable (w : World) : Prop :=
  ∃ w0, loaded_modules w0 = [] ∧ rtc step w0 w.

(** A clock that never runs backwards. *)
Definition monotone_clock (w : World) : Prop :=
  ∀ n m, (n ≤ m)%nat → clock w n ≤ clock w m.

(** A finder that has nothing to say about [fullname]: it has no
    [find_spec], or its [find_spec] answers [None]. *)
Definition silent (fullname : string) (finder : Finder) : Prop :=
  match finder with
  | NoFindSpec => True
  | HasFindSpec f => f fullname = Returns None
  end.

(** The unit [pkg.mod] is found by a resolver that sits behind two silent
    ones and in front of one that would raise. *)
Definition crowded_world : World :=
  {| loaded_modules := []; sys_modules := ∅;
     meta_path_tail :=
       [NoFindSpec; HasFindSpec (λ _, Returns None);
        HasFindSpec sample_finder;
        HasFindSpec (λ _, Raises (FinderError "never asked"))];
     mtimes := ∅; top_level := λ _, None;
     clock := λ n, 200 + Z.of_nat n; ticks := 0; reexecuted := [] |}.

(** A built-in unit, whose handle has no file ([__file__] is [None]),
    tracked before the unit [pkg.mod], whose file is newer than its load
    time. *)
Definition fileless_world : World :=
  {| loaded_modules :=
       [("builtin", {| module_name := "builtin"; path := "built-in";
                       load_time := 100 |});
        ("pkg.mod", sample_info)];
     sys_modules :=
       {[ "builtin" := {| mod_file := Some None |};
          "pkg.mod" := sample_module ]};
     meta_path_tail := [NoFindSpec; HasFindSpec sample_finder];
     mtimes := {[ "/tmp/pkg/mod.src" := 150 ]};
     top_level := λ _, None;
     clock := λ n, 200 + Z.of_nat n;
     ticks := 0; reexecuted := [] |}.

(** * Properties *)

(** ** Facts about dictionaries *)

Module DictFacts.
Section facts.
Context {V : Type}.
Implicit Types (d : list (string * V)) (k : string) (v : V).

Lemma contains_true k d : Dict.contains k d = true ↔ is_Some (Dict.get k d).
Proof.
  unfold Dict.contains. destruct (Dict.get k d); split; intros H;
    try done; by destruct H.
Qed.

Lemma contains_false k d : Dict.contains k d = false ↔ Dict.get k d = None.
Proof. unfold Dict.contains. by destruct (Dict.get k d). Qed.

Lemma get_None_keys k d : Dict.get k d = None ↔ k ∉ Dict.keys d.
Proof.
  unfold Dict.keys. induction d as [|[k' v'] d IH]; simpl.
  - split; [intros _; apply not_elem_of_nil | done].
  - rewrite not_elem_of_cons. destruct (decide (k = k')) as [->|Hne].
    + split; [done|]. by intros [? _].
    + rewrite IH. tauto.
Qed.

Lemma get_Some_elem k v d : Dict.get k d = Some v → (k, v) ∈ d.
Proof.
  induction d as [|[k' v'] d IH]; simpl; [done|].
  case_decide as Hk.
  - intros [= ->]. subst. apply list_elem_of_here.
  - intros H. apply list_elem_of_further. auto.
Qed.

Lemma elem_get_Some k v d : Dict.wf d → (k, v) ∈ d → Dict.get k d = Some v.
Proof.
  unfold Dict.wf, Dict.keys. induction d as [|[k' v'] d IH]; simpl.
  - intros _ H. by apply elem_of_nil in H.
  - rewrite NoDup_cons. intros [Hk' Hd] [[= -> ->]|H]%elem_of_cons.
    + by rewrite decide_True.
    + rewrite decide_False; [auto|].
      intros ->. apply Hk'. apply (list_elem_of_fmap_2 fst) in H. done.
Qed.

Lemma set_absent k v d : Dict.get k d = None → Dict.set k v d = d ++ [(k, v)].
Proof.
  induction d as [|[k' v'] d IH]; simpl; [done|].
  destruct (decide (k = k')); [done|]. intros Hd. by rewrite IH.
Qed.

Lemma get_app k d1 d2 :
  Dict.get k (d1 ++ d2) =
    match Dict.get k d1 with Some v => Some v | None => Dict.get k d2 end.
Proof.
  induction d1 as [|[k' v'] d1 IH]; simpl; [done|]. by case_decide.
Qed.

Lemma get_set k k' v d :
  Dict.get k' (Dict.set k v d) = if decide (k' = k) then Some v else Dict.get k' d.
Proof.
  induction d as [|[k0 v0] d IH]; simpl.
  - repeat case_decide; congruence.
  - destruct (decide (k = k0)) as [->|]; simpl; repeat case_decide; congruence.
Qed.

Lemma get_alter f k k' d :
  Dict.get k' (Dict.alter f k d) =
    if decide (k' = k) then f <$> Dict.get k' d else Dict.get k' d.
Proof.
  induction d as [|[k0 v0] d IH]; simpl.
  - by case_decide.
  - destruct (decide (k = k0)) as [->|]; simpl; repeat case_decide;
      simpl; congruence.
Qed.


Lemma keys_alter f k d : Dict.keys (Dict.alter f k d) = Dict.keys d.
Proof.
  unfold Dict.keys. induction d as [|[k0 v0] d IH]; [done|].
  cbn [Dict.alter]. case_decide; rewrite !fmap_cons; [done|].
  by rewrite IH.
Qed.

Lemma keys_set_absent k v d :
  Dict.get k d = None → Dict.keys (Dict.set k v d) = Dict.keys d ++ [k].
Proof.
  intros H. rewrite set_absent by done. unfold Dict.keys.
  by rewrite fmap_app.
Qed.

Lemma wf_alter f k d : Dict.wf d → Dict.wf (Dict.alter f k d).
Proof. unfold Dict.wf. by rewrite keys_alter. Qed.

Lemma wf_set_absent k v d :
  Dict.get k d = None → Dict.wf d → Dict.wf (Dict.set k v d).
Proof.
  intros Hk Hd. unfold Dict.wf. rewrite keys_set_absent by done.
  apply NoDup_app. split; [done|]. split; [|apply NoDup_singleton].
  intros x Hx ->%list_elem_of_singleton. by apply get_None_keys in Hk.
Qed.

Lemma entries_absent k d : k ∉ Dict.keys d → Dict.entries k d = 0%nat.
Proof.
  unfold Dict.keys, Dict.entries. induction d as [|[k' v'] d IH]; simpl; [done|].
  rewrite not_elem_of_cons. intros [Hne Hd].
  rewrite filter_cons_False by (simpl; congruence). auto.
Qed.

Lemma entries_wf k d : Dict.wf d → is_Some (Dict.get k d) → Dict.entries k d = 1%nat.
Proof.
  unfold Dict.wf. induction d as [|[k' v'] d IH]; simpl.
  - intros _ [? [=]].
  - unfold Dict.keys; simpl. rewrite NoDup_cons. intros [Hk' Hd].
    case_decide as Hk.
    + subst k'. intros _. unfold Dict.entries.
      rewrite filter_cons_True by done. simpl. f_equal.
      by apply entries_absent.
    + intros H. unfold Dict.entries.
      rewrite filter_cons_False by (simpl; congruence). by apply IH.
Qed.
End facts.
End DictFacts.

(** ** What an operation leaves alone *)

Lemma same_env_refl w : same_env w w.
Proof. by repeat split. Qed.

Lemma same_env_trans w1 w2 w3 : same_env w1 w2 → same_env w2 w3 → same_env w1 w3.
Proof.
  intros (?&?&?&?&?) (?&?&?&?&?). repeat split; congruence.
Qed.

Lemma keeps_records_refl d : keeps_records d d.
Proof. by intros k info. Qed.

Lemma keeps_records_trans d1 d2 d3 :
  keeps_records d1 d2 → keeps_records d2 d3 → keeps_records d1 d3.
Proof. intros H12 H23 k info H. auto. Qed.

Lemma keeps_records_app d d' : keeps_records d (d ++ d').
Proof. intros k info H. by rewrite DictFacts.get_app, H. Qed.

(** ** The registry: [track_module] and [update_module_load_time] *)

Lemma track_module_tracked spec w :
  Dict.contains (spec_name spec) (loaded_modules w) = true →
  track_module spec w = (Returns tt, w).
Proof. intros H. unfold track_module. py_unfold. by rewrite H. Qed.

Lemma track_module_new spec origin w :
  Dict.contains (spec_name spec) (loaded_modules w) = false →
  truthy (spec_origin spec) = Some origin →
  track_module spec w =
    (Returns tt,
     set_loaded_modules (loaded_modules w ++ [new_record spec origin w])
       (set_ticks (S (ticks w)) w)).
Proof.
  intros Hd Ho. unfold track_module. py_unfold. rewrite Hd, Ho. simpl.
  apply DictFacts.contains_false in Hd.
  by rewrite DictFacts.set_absent.
Qed.

Lemma track_module_no_origin spec w :
  Dict.contains (spec_name spec) (loaded_modules w) = false →
  truthy (spec_origin spec) = None →
  track_module spec w = (Raises AssertionError, w).
Proof. intros Hd Ho. unfold track_module. py_unfold. by rewrite Hd, Ho. Qed.

(** The three cases of [track_module] at once. *)
Lemma track_module_cases spec w :
  (Dict.contains (spec_name spec) (loaded_modules w) = true ∧
   track_module spec w = (Returns tt, w)) ∨
  (Dict.contains (spec_name spec) (loaded_modules w) = false ∧
   truthy (spec_origin spec) = None ∧
   track_module spec w = (Raises AssertionError, w)) ∨
  (∃ origin,
     Dict.contains (spec_name spec) (loaded_modules w) = false ∧
     truthy (spec_origin spec) = Some origin ∧
     track_module spec w =
       (Returns tt,
        set_loaded_modules (loaded_modules w ++ [new_record spec origin w])
          (set_ticks (S (ticks w)) w))).
Proof.
  destruct (Dict.contains (spec_name spec) (loaded_modules w)) eqn:Hd.
  - left. auto using track_module_tracked.
  - right. destruct (truthy (spec_origin spec)) as [origin|] eqn:Ho.
    + right. exists origin. auto using track_module_new.
    + left. auto using track_module_no_origin.
Qed.

Lemma track_module_frame spec w r w' :
  track_module spec w = (r, w') →
  same_env w w' ∧ reexecuted w' = reexecuted w ∧
  keeps_records (loaded_modules w) (loaded_modules w') ∧
  (Dict.wf (loaded_modules w) → Dict.wf (loaded_modules w')).
Proof.
  destruct (track_module_cases spec w) as [[_ E]|[(_&_&E)|(o&Hd&_&E)]];
    rewrite E; intros [= <- <-].
  - auto using same_env_refl, keeps_records_refl.
  - auto using same_env_refl, keeps_records_refl.
  - simpl. split; [by repeat split|]. split; [done|].
    split; [apply keeps_records_app|].
    intros Hwf. apply DictFacts.contains_false in Hd.
    unfold new_record. rewrite <- DictFacts.set_absent by done.
    by apply DictFacts.wf_set_absent.
Qed.

Lemma update_module_load_time_tracked name w :
  Dict.contains name (loaded_modules w) = true →
  update_module_load_time name w =
    (Returns tt,
     set_loaded_modules
       (Dict.alter (with_load_time (clock w (ticks w))) name (loaded_modules w))
       (set_ticks (S (ticks w)) w)).
Proof. intros H. unfold update_module_load_time. py_unfold. by rewrite H. Qed.

Lemma update_module_load_time_untracked name w :
  Dict.contains name (loaded_modules w) = false →
  update_module_load_time name w = (Returns tt, w).
Proof. intros H. unfold update_module_load_time. py_unfold. by rewrite H. Qed.

(** ** The interceptor *)

(** The interceptor asks the resolvers in order and tracks the first spec
    it gets. *)
Lemma find_spec_resolve fullname w :
  find_spec fullname w =
    match resolve (meta_path_tail w) fullname with
    | Raises e => (Raises e, w)
    | Returns None => (Returns None, w)
    | Returns (Some spec) => (track_module spec ;;; ret (Some spec)) w
    end.
Proof.
  unfold find_spec. unfold bind at 1. unfold read_meta_path_tail.
  induction (meta_path_tail w) as [|[|f] rest IH]; simpl; [done|done|].
  destruct (f fullname) as [[spec|]|e]; done.
Qed.

(** C1, as stated, fails: for a unit that is not tracked yet and whose spec
    has no origin, the assertion of [track_module] fails inside [find_spec],
    which raises [AssertionError] instead of returning the spec. *)
Lemma find_spec_no_origin_raises :
  resolve (meta_path_tail virtual_world) "virtual" = Returns (Some virtual_spec) ∧
  spec_origin virtual_spec = None ∧
  find_spec "virtual" virtual_world = (Raises AssertionError, virtual_world) ∧
  ¬ fail_open_tracking.
Proof.
  split; [done|]. split; [done|]. split; [done|].
  intros H.
  destruct (H virtual_world "virtual" virtual_spec) as (w' & E & _); done.
Qed.

(** C1, amended: when the resolvers answer with a spec that has no source
    location ([None] or the empty string), the world, and with it the
    registry, is left as it is; [find_spec] returns the spec unchanged when
    its name is tracked already, and raises [AssertionError] when it is
    not. *)
Theorem find_spec_no_origin w fullname spec :
  resolve (meta_path_tail w) fullname = Returns (Some spec) →
  truthy (spec_origin spec) = None →
  find_spec fullname w =
    if Dict.contains (spec_name spec) (loaded_modules w)
    then (Returns (Some spec), w)
    else (Raises AssertionError, w).
Proof.
  intros Hres Ho. rewrite find_spec_resolve, Hres. unfold bind.
  destruct (Dict.contains _ _) eqn:Hd.
  - by rewrite track_module_tracked.
  - by rewrite track_module_no_origin.
Qed.

Lemma find_spec_no_origin_witness :
  resolve (meta_path_tail virtual_world) "virtual" = Returns (Some virtual_spec) ∧
  truthy (spec_origin virtual_spec) = None ∧
  find_spec "virtual" virtual_world = (Raises AssertionError, virtual_world).
Proof.
  split; [reflexivity|]. split; [reflexivity|].
  apply (find_spec_no_origin virtual_world "virtual" virtual_spec); reflexivity.
Defined.

(** ** Tracking twice, tracking the empty identity *)

(** C5: after a first call of [track_module] for an identity has returned,
    a later call for the same identity (whatever origin it carries, whatever
    the clock shows by then) changes nothing, not even the clock's reading
    count; the registry holds exactly one entry for the identity; and when
    the first call created the entry, its path and load time are still the
    first call's origin and clock reading. *)
Theorem track_module_twice w spec spec' w1 w2 :
  Dict.wf (loaded_modules w) →
  track_module spec w = (Returns tt, w1) →
  spec_name spec' = spec_name spec →
  loaded_modules w2 = loaded_modules w1 →
  track_module spec' w2 = (Returns tt, w2) ∧
  Dict.entries (spec_name spec) (loaded_modules w2) = 1%nat ∧
  (Dict.contains (spec_name spec) (loaded_modules w) = false →
   ∃ origin, truthy (spec_origin spec) = Some origin ∧
     Dict.get (spec_name spec) (loaded_modules w2) =
       Some {| module_name := spec_name spec; path := origin;
               load_time := clock w (ticks w) |}).
Proof.
  intros Hwf H1 Hname H2.
  assert (Hin : is_Some (Dict.get (spec_name spec) (loaded_modules w1)) ∧
                Dict.wf (loaded_modules w1) ∧
                (Dict.contains (spec_name spec) (loaded_modules w) = false →
                 ∃ origin, truthy (spec_origin spec) = Some origin ∧
                   Dict.get (spec_name spec) (loaded_modules w1) =
                     Some (new_record spec origin w).2)).
  { destruct (track_module_frame _ _ _ _ H1) as (_ & _ & _ & Hwf1).
    split; [|split; [auto|]].
    - destruct (track_module_cases spec w) as [[Hd E]|[(_&_&E)|(o&Hd&_&E)]];
        rewrite E in H1; inversion H1; subst.
      + by apply DictFacts.contains_true.
      + simpl. rewrite DictFacts.get_app. simpl. rewrite decide_True by done.
        by destruct (Dict.get _ _).
    - intros Hd.
      destruct (track_module_cases spec w) as [[Hd' E]|[(_&_&E)|(o&_&Ho&E)]];
        rewrite E in H1; inversion H1; subst; [congruence|].
      exists o. split; [done|]. simpl. rewrite DictFacts.get_app.
      apply DictFacts.contains_false in Hd. rewrite Hd. simpl.
      by rewrite decide_True. }
  destruct Hin as (Hin & Hwf1 & Hfirst). rewrite <- H2 in Hin, Hwf1, Hfirst.
  split; [|split].
  - apply track_module_tracked. rewrite Hname.
    by apply DictFacts.contains_true.
  - by apply DictFacts.entries_wf.
  - exact Hfirst.
Qed.

Lemma track_module_twice_witness :
  let w1 := (track_module sample_spec empty_world).2 in
  let w2 := set_ticks 7 w1 in
  track_module sample_spec_moved w2 = (Returns tt, w2) ∧
  Dict.get "pkg.mod" (loaded_modules w2) =
    Some {| module_name := "pkg.mod"; path := "/tmp/pkg/mod.src";
            load_time := 0 |}.
Proof.
  intros w1 w2.
  destruct (track_module_twice empty_world sample_spec sample_spec_moved w1 w2)
    as (H1 & _ & H3).
  - apply NoDup_nil_2.
  - reflexivity.
  - reflexivity.
  - reflexivity.
  - split; [exact H1|].
    destruct (H3 eq_refl) as (origin & Ho & Hget).
    injection Ho as <-. exact Hget.
Defined.

(** C9, as stated, fails: [track_module] does not look at the identity at
    all, and a spec with the empty name and an origin gets an entry under
    the empty key. *)
Lemma track_module_accepts_empty_identity :
  loaded_modules (track_module nameless_spec empty_world).2 =
    [("", {| module_name := ""; path := "/tmp/nameless.src"; load_time := 0 |})] ∧
  ¬ rejects_empty_identity.
Proof.
  split; [reflexivity|].
  intros H. specialize (H empty_world nameless_spec eq_refl). done.
Qed.

(** C9, amended: the empty identity is tracked like any other one. A call
    for it with a source location, when the empty key is not in the
    registry yet, appends the entry for the empty key, stamped with the
    clock's reading. *)
Theorem track_module_empty_identity w origin o :
  Dict.contains "" (loaded_modules w) = false →
  truthy origin = Some o →
  track_module {| spec_name := ""; spec_origin := origin |} w =
    (Returns tt,
     set_loaded_modules
       (loaded_modules w ++
          [("", {| module_name := ""; path := o;
                   load_time := clock w (ticks w) |})])
       (set_ticks (S (ticks w)) w)).
Proof.
  intros Hd Ho.
  by rewrite (track_module_new {| spec_name := ""; spec_origin := origin |} o).
Qed.

Lemma track_module_empty_identity_witness :
  Dict.get "" (loaded_modules (track_module nameless_spec empty_world).2) =
    Some {| module_name := ""; path := "/tmp/nameless.src"; load_time := 0 |}.
Proof.
  unfold nameless_spec.
  rewrite (track_module_empty_identity empty_world
             (Some "/tmp/nameless.src") "/tmp/nameless.src");
    reflexivity.
Defined.

(** ** The staleness check *)

Lemma stale_loop_cons name info rest acc w :
  stale_loop ((name, info) :: rest) acc w =
    match verdict w name info with
    | Raises e => (Raises e, w)
    | Returns true => stale_loop rest (acc ++ [name]) w
    | Returns false => stale_loop rest acc w
    end.
Proof.
  unfold verdict. simpl. py_unfold.
  destruct (sys_modules w !! name) as [m|]; [|done].
  destruct (mod_file m) as [f|]; simpl; [|done].
  destruct (truthy f) as [file|]; [|done].
  destruct (mtimes w !! file) as [t|]; [|done].
  by destruct (t >? load_time info).
Qed.

Lemma stale_loop_world items : ∀ acc w, (stale_loop items acc w).2 = w.
Proof.
  induction items as [|[name info] rest IH]; intros acc w; [done|].
  rewrite stale_loop_cons.
  destruct (verdict w name info) as [[|]|e]; auto.
Qed.

Lemma stale_loop_returns items : ∀ acc w,
  Forall (λ e, ∃ b, verdict w e.1 e.2 = Returns b) items →
  stale_loop items acc w = (Returns (acc ++ stale_names w items), w).
Proof.
  unfold stale_names.
  induction items as [|[name info] rest IH]; intros acc w Hall.
  - simpl. unfold ret. by rewrite app_nil_r.
  - apply Forall_cons in Hall as [[b Hb] Hrest]. simpl in Hb.
    rewrite stale_loop_cons, Hb. destruct b.
    + rewrite filter_cons_True by (unfold found_stale; simpl; by rewrite Hb).
      rewrite IH by done. by rewrite fmap_cons, <- app_assoc.
    + rewrite filter_cons_False
        by (unfold found_stale; simpl; rewrite Hb; congruence).
      by apply IH.
Qed.

Lemma stale_loop_returns_inv items : ∀ acc w l w',
  stale_loop items acc w = (Returns l, w') →
  Forall (λ e, ∃ b, verdict w e.1 e.2 = Returns b) items.
Proof.
  induction items as [|[name info] rest IH]; intros acc w l w' H; [done|].
  rewrite stale_loop_cons in H. apply Forall_cons.
  destruct (verdict w name info) as [[|]|e] eqn:Hv; [| |done];
    (split; [by eexists|by eapply IH]).
Qed.

Lemma stale_loop_raises pre name info post e : ∀ acc w,
  Forall (λ e, ∃ b, verdict w e.1 e.2 = Returns b) pre →
  verdict w name info = Raises e →
  stale_loop (pre ++ (name, info) :: post) acc w = (Raises e, w).
Proof.
  induction pre as [|[n i] pre IH]; intros acc w Hpre Hv.
  - simpl app. by rewrite stale_loop_cons, Hv.
  - apply Forall_cons in Hpre as [[b Hb] Hpre]. simpl in Hb.
    simpl app. rewrite stale_loop_cons, Hb. destruct b; by apply IH.
Qed.

Lemma stale_loop_raises_some items name info e : ∀ acc w,
  (name, info) ∈ items →
  verdict w name info = Raises e →
  ∃ e', stale_loop items acc w = (Raises e', w).
Proof.
  induction items as [|[n i] rest IH]; intros acc w Hin Hv.
  - by apply elem_of_nil in Hin.
  - rewrite stale_loop_cons. apply elem_of_cons in Hin as [[= <- <-]|Hin].
    + rewrite Hv. by eexists.
    + destruct (verdict w n i) as [[|]|e0]; [eauto|eauto|by eexists].
Qed.

Lemma get_stale_modules_world w : (get_stale_modules w).2 = w.
Proof. unfold get_stale_modules. py_unfold. apply stale_loop_world. Qed.

Lemma get_stale_modules_returns w :
  scannable w →
  get_stale_modules w = (Returns (stale_names w (loaded_modules w)), w).
Proof.
  intros H. unfold get_stale_modules. py_unfold.
  by rewrite stale_loop_returns.
Qed.

Lemma get_stale_modules_returns_inv w l w' :
  get_stale_modules w = (Returns l, w') →
  scannable w ∧ w' = w ∧ l = stale_names w (loaded_modules w).
Proof.
  intros H. assert (Hs : scannable w).
  { unfold get_stale_modules in H. py_unfold.
    by eapply stale_loop_returns_inv. }
  rewrite get_stale_modules_returns in H by done.
  injection H as <- <-. done.
Qed.

Lemma elem_of_stale_names w items name :
  name ∈ stale_names w items ↔
  ∃ info, (name, info) ∈ items ∧ verdict w name info = Returns true.
Proof.
  unfold stale_names. rewrite list_elem_of_fmap. split.
  - intros ([n i] & -> & [Hv Hin]%list_elem_of_filter). exists i.
    split; [done|]. unfold found_stale in Hv. simpl in *.
    by destruct (verdict w n i) as [[|]|].
  - intros (info & Hin & Hv). exists (name, info). split; [done|].
    apply list_elem_of_filter. split; [|done].
    unfold found_stale. simpl. by rewrite Hv.
Qed.

Lemma stale_names_get w d name :
  Dict.wf d →
  name ∈ stale_names w d ↔
  ∃ info, Dict.get name d = Some info ∧ verdict w name info = Returns true.
Proof.
  intros Hwf. rewrite elem_of_stale_names. split; intros (info & H & Hv);
    exists info; split; auto using DictFacts.get_Some_elem, DictFacts.elem_get_Some.
Qed.

Lemma verdict_file w name info m file t :
  sys_modules w !! name = Some m →
  mod_file m = Some (Some file) →
  file ≠ "" →
  mtimes w !! file = Some t →
  verdict w name info = Returns (t >? load_time info).
Proof.
  intros Hm Hf Hne Ht. unfold verdict. rewrite Hm, Hf. simpl.
  rewrite decide_False by done. by rewrite Ht.
Qed.

(** C4: in a registry that holds each name once, a tracked unit with a live
    handle whose file exists is in the list returned by [get_stale_modules]
    exactly when the file's modification time is strictly greater than the
    recorded load time; with equal times it is not in the list. The scan
    does return a list whenever no entry of the registry raises. *)
Theorem stale_iff_newer w name info m file t :
  Dict.wf (loaded_modules w) →
  Dict.get name (loaded_modules w) = Some info →
  sys_modules w !! name = Some m →
  mod_file m = Some (Some file) →
  file ≠ "" →
  mtimes w !! file = Some t →
  (∀ l w', get_stale_modules w = (Returns l, w') →
     (name ∈ l ↔ load_time info < t) ∧ (t = load_time info → name ∉ l)) ∧
  (scannable w → ∃ l, get_stale_modules w = (Returns l, w)).
Proof.
  intros Hwf Hget Hm Hf Hne Ht.
  pose proof (verdict_file w name info m file t Hm Hf Hne Ht) as Hv.
  split; [|intros Hs; eexists; by apply get_stale_modules_returns].
  intros l w' (_ & _ & ->)%get_stale_modules_returns_inv.
  assert (Hiff : name ∈ stale_names w (loaded_modules w) ↔ load_time info < t).
  { rewrite stale_names_get by done. split.
    - intros (info' & Hget' & Hv'). rewrite Hget in Hget'.
      injection Hget' as <-. rewrite Hv in Hv'. injection Hv' as Hv'.
      by apply Z.gtb_lt.
    - intros Hlt. exists info. split; [done|]. rewrite Hv. f_equal.
      by apply Z.gtb_lt. }
  split; [done|]. intros -> Hin. apply Hiff in Hin. lia.
Qed.

Lemma stale_iff_newer_witness :
  get_stale_modules (scenario_world 100) = (Returns [], scenario_world 100) ∧
  get_stale_modules (scenario_world 150) = (Returns ["pkg.mod"], scenario_world 150) ∧
  ("pkg.mod" ∉ @nil string) ∧
  ("pkg.mod" ∈ ["pkg.mod"] ↔ load_time sample_info < 150).
Proof.
  split; [reflexivity|]. split; [reflexivity|]. split.
  - destruct (stale_iff_newer (scenario_world 100) "pkg.mod" sample_info
                sample_module "/tmp/pkg/mod.src" 100) as [H _];
      [solve_wf|reflexivity|reflexivity|reflexivity|discriminate|reflexivity|].
    destruct (H [] (scenario_world 100) eq_refl) as [_ Htie].
    exact (Htie eq_refl).
  - destruct (stale_iff_newer (scenario_world 150) "pkg.mod" sample_info
                sample_module "/tmp/pkg/mod.src" 150) as [H _];
      [solve_wf|reflexivity|reflexivity|reflexivity|discriminate|reflexivity|].
    destruct (H ["pkg.mod"] (scenario_world 150) eq_refl) as [Hiff _].
    exact Hiff.
Defined.

(** C2, as stated, fails: an entry whose handle has left [sys.modules]
    makes [get_stale_modules] raise [KeyError], and one whose file is gone
    makes it raise [FileNotFoundError]; nothing is returned. *)
Lemma get_stale_modules_raises_on_vanished :
  get_stale_modules unloaded_world = (Raises (KeyError "pkg.mod"), unloaded_world) ∧
  get_stale_modules deleted_world =
    (Raises (FileNotFoundError "/tmp/pkg/mod.src"), deleted_world) ∧
  ¬ skips_vanished.
Proof.
  split; [reflexivity|]. split; [reflexivity|].
  intros H.
  destruct (H unloaded_world "pkg.mod" sample_info) as (l & E & _).
  - apply list_elem_of_here.
  - by left.
  - discriminate E.
Qed.

Lemma verdict_vanished w name info :
  vanished w name →
  ∃ e, verdict w name info = Raises e ∧
       (sys_modules w !! name = None → e = KeyError name) ∧
       (∀ m file, sys_modules w !! name = Some m →
                  mod_file m = Some (Some file) → e = FileNotFoundError file).
Proof.
  unfold verdict. intros [Hm|(m & file & Hm & Hf & Hne & Ht)]; rewrite Hm.
  - exists (KeyError name). split; [done|]. split; [done|]. by intros ???.
  - rewrite Hf. simpl. rewrite decide_False by done. rewrite Ht.
    exists (FileNotFoundError file). split; [done|]. split; [done|].
    intros m' file' [= <-] Hf'. rewrite Hf in Hf'. by injection Hf' as <-.
Qed.

(** C2, amended: when the registry holds an entry whose handle or file has
    vanished, [get_stale_modules] raises and leaves the world as it is; when
    the entries before it can be scanned, the exception is [KeyError] of the
    name for a missing handle and [FileNotFoundError] of the file for a
    missing file. *)
Theorem get_stale_modules_vanished w pre name info post :
  loaded_modules w = pre ++ (name, info) :: post →
  vanished w name →
  (∃ e, get_stale_modules w = (Raises e, w)) ∧
  (Forall (λ e, ∃ b, verdict w e.1 e.2 = Returns b) pre →
   (sys_modules w !! name = None →
    get_stale_modules w = (Raises (KeyError name), w)) ∧
   (∀ m file, sys_modules w !! name = Some m →
              mod_file m = Some (Some file) →
              get_stale_modules w = (Raises (FileNotFoundError file), w))).
Proof.
  intros Hd Hgone.
  destruct (verdict_vanished w name info Hgone) as (e & Hv & Hkey & Hfile).
  unfold get_stale_modules. py_unfold. split.
  - eapply stale_loop_raises_some; [|exact Hv].
    rewrite Hd. apply elem_of_app. right. apply list_elem_of_here.
  - intros Hpre. rewrite Hd.
    rewrite (stale_loop_raises pre name info post e) by done.
    split.
    + intros Hm. by rewrite (Hkey Hm).
    + intros m file Hm Hf. by rewrite (Hfile m file Hm Hf).
Qed.

Lemma get_stale_modules_vanished_witness :
  vanished unloaded_world "pkg.mod" ∧
  get_stale_modules unloaded_world = (Raises (KeyError "pkg.mod"), unloaded_world).
Proof.
  assert (Hgone : vanished unloaded_world "pkg.mod") by (left; reflexivity).
  split; [exact Hgone|].
  destruct (get_stale_modules_vanished unloaded_world [] "pkg.mod" sample_info [])
    as [_ H]; [reflexivity|exact Hgone|].
  destruct (H (Forall_nil_2 _)) as [Hkey _]. apply Hkey. reflexivity.
Defined.

(** ** Reloading one unit *)

Lemma find_spec_frame fullname w r w' :
  find_spec fullname w = (r, w') →
  same_env w w' ∧ reexecuted w' = reexecuted w ∧
  keeps_records (loaded_modules w) (loaded_modules w') ∧
  (Dict.wf (loaded_modules w) → Dict.wf (loaded_modules w')).
Proof.
  rewrite find_spec_resolve.
  destruct (resolve (meta_path_tail w) fullname) as [[spec|]|e].
  - unfold bind, ret. destruct (track_module spec w) as [[[]|e] w1] eqn:E;
      intros [= <- <-]; by apply (track_module_frame spec w _ _ E).
  - intros [= <- <-]. auto using same_env_refl, keeps_records_refl.
  - intros [= <- <-]. auto using same_env_refl, keeps_records_refl.
Qed.

(** [rpartition] on some names. *)
Example parent_name_examples :
  parent_name "plugin" = "" ∧ parent_name "pkg.mod" = "pkg" ∧
  parent_name "a.b.c" = "a.b" ∧ parent_name ".hidden" = "" ∧
  parent_name "" = "".
Proof. repeat split. Qed.

(** The outcomes of the engine's reload. *)
Lemma importlib_reload_cases name w r w' :
  importlib_reload name w = (r, w') →
  (∃ e, r = Raises e ∧ reexecuted w' = reexecuted w) ∨
  (∃ spec w1,
     r = Returns tt ∧
     resolve (meta_path_tail w) name = Returns (Some spec) ∧
     spec_name spec = name ∧
     track_module spec w = (Returns tt, w1) ∧
     top_level w name = None ∧
     w' = set_reexecuted (reexecuted w1 ++ [name]) w1).
Proof.
  unfold importlib_reload.
  destruct (parent_ready w name); [|intros [= <- <-]; left; eauto].
  unfold resolve_and_exec. unfold bind at 1.
  destruct (find_spec name w) as [[[spec|]|e] w1] eqn:E.
  - pose proof (find_spec_frame _ _ _ _ E) as (Henv & Hlog & _).
    rewrite find_spec_resolve in E.
    destruct (resolve (meta_path_tail w) name) as [[spec'|]|e'] eqn:R;
      [|done|done].
    unfold bind, ret in E.
    destruct (track_module spec' w) as [[[]|e'] w2] eqn:T; [|done].
    injection E as -> ->.
    case_decide as Hn.
    + unfold exec_module. destruct Henv as (_ & _ & _ & Htop & _).
      rewrite Htop. destruct (top_level w name) as [reason|] eqn:X.
      * intros [= <- <-]. left. eauto.
      * intros [= <- <-]. right. exists spec, w1. done.
    + intros [= <- <-]. left. eauto.
  - pose proof (find_spec_frame _ _ _ _ E) as (_ & Hlog & _).
    intros [= <- <-]. left. eauto.
  - pose proof (find_spec_frame _ _ _ _ E) as (_ & Hlog & _).
    intros [= <- <-]. left. eauto.
Qed.

Lemma importlib_reload_frame name w r w' :
  importlib_reload name w = (r, w') →
  same_env w w' ∧
  keeps_records (loaded_modules w) (loaded_modules w') ∧
  (Dict.wf (loaded_modules w) → Dict.wf (loaded_modules w')).
Proof.
  unfold importlib_reload.
  destruct (parent_ready w name);
    [|intros [= <- <-]; auto using same_env_refl, keeps_records_refl].
  unfold resolve_and_exec. unfold bind at 1.
  destruct (find_spec name w) as [[[spec|]|e] w1] eqn:E;
    pose proof (find_spec_frame _ _ _ _ E) as (Henv & _ & Hkeep & Hwf).
  - case_decide.
    + unfold exec_module. destruct (top_level w1 name);
        intros [= <- <-]; done.
    + intros [= <- <-]. done.
  - intros [= <- <-]. done.
  - intros [= <- <-]. done.
Qed.

Lemma update_module_load_time_frame name w :
  ∃ w', update_module_load_time name w = (Returns tt, w') ∧
        same_env w w' ∧ reexecuted w' = reexecuted w ∧
        Dict.keys (loaded_modules w') = Dict.keys (loaded_modules w) ∧
        (∀ k, k ≠ name →
              Dict.get k (loaded_modules w') = Dict.get k (loaded_modules w)) ∧
        Dict.get name (loaded_modules w') =
          with_load_time (clock w (ticks w)) <$> Dict.get name (loaded_modules w).
Proof.
  destruct (Dict.contains name (loaded_modules w)) eqn:Hd.
  - rewrite update_module_load_time_tracked by done. eexists. split; [done|].
    simpl. split; [by repeat split|]. split; [done|].
    split; [apply DictFacts.keys_alter|]. split.
    + intros k Hk. rewrite DictFacts.get_alter. by rewrite decide_False.
    + rewrite DictFacts.get_alter. by rewrite decide_True.
  - rewrite update_module_load_time_untracked by done. exists w.
    split; [done|]. split; [apply same_env_refl|]. split; [done|].
    split; [done|]. split; [done|].
    apply DictFacts.contains_false in Hd. by rewrite Hd.
Qed.

Lemma reload_module_not_live name w :
  sys_modules w !! name = None → reload_module name w = (Returns tt, w).
Proof.
  intros H. unfold reload_module, bind, sys_modules_contains. rewrite H.
  rewrite bool_decide_eq_false_2; [done|]. by intros [? ?].
Qed.

Lemma reload_module_live name m w :
  sys_modules w !! name = Some m →
  reload_module name w =
    (importlib_reload name ;;; update_module_load_time name) w.
Proof.
  intros H. unfold reload_module. unfold bind at 1.
  unfold sys_modules_contains. rewrite H.
  by rewrite bool_decide_eq_true_2.
Qed.

(** A reload that raises: the engine raised, and no timestamp was touched. *)
Lemma reload_module_raises name w e w' :
  reload_module name w = (Raises e, w') →
  same_env w w' ∧ reexecuted w' = reexecuted w ∧
  keeps_records (loaded_modules w) (loaded_modules w') ∧
  (Dict.wf (loaded_modules w) → Dict.wf (loaded_modules w')).
Proof.
  destruct (sys_modules w !! name) as [m|] eqn:Hm.
  - rewrite (reload_module_live name m) by done. unfold bind.
    destruct (importlib_reload name w) as [[[]|e'] w1] eqn:E.
    + destruct (update_module_load_time_frame name w1) as (w2 & -> & _). done.
    + intros [= <- <-].
      pose proof (importlib_reload_frame _ _ _ _ E) as (Henv & Hkeep & Hwf).
      destruct (importlib_reload_cases _ _ _ _ E) as [(e0 & _ & Hlog)|(?&?&?&_)];
        done.
  - rewrite reload_module_not_live by done. done.
Qed.

(** A reload of a tracked unit that returns: the world it leaves. *)
Lemma reload_module_tracked_returns name w w' :
  Dict.contains name (loaded_modules w) = true →
  reload_module name w = (Returns tt, w') →
  is_Some (sys_modules w !! name) →
  w' = set_loaded_modules
         (Dict.alter (with_load_time (clock w (ticks w))) name (loaded_modules w))
         (set_ticks (S (ticks w)) (set_reexecuted (reexecuted w ++ [name]) w)).
Proof.
  intros Hd H [m Hm]. rewrite (reload_module_live name m) in H by done.
  unfold bind in H.
  destruct (importlib_reload name w) as [[[]|e'] w1] eqn:E; [|done].
  destruct (importlib_reload_cases _ _ _ _ E)
    as [(e0 & ? & _)|(spec & w0 & _ & _ & Hn & Ht & _ & ->)]; [done|].
  rewrite track_module_tracked in Ht by (by rewrite Hn).
  injection Ht as <-.
  rewrite update_module_load_time_tracked in H by done.
  by injection H as <-.
Qed.






(** ** Reloading clears staleness; reloading all stale units *)

Lemma verdict_mtime_of w name info :
  verdict w name info = Returns true ↔
  ∃ t, mtime_of w name = Some t ∧ load_time info < t.
Proof.
  unfold verdict, mtime_of.
  destruct (sys_modules w !! name) as [m|]; simpl; [|by split; [|intros (?&?&?)]].
  destruct (mod_file m) as [f|]; simpl; [|by split; [|intros (?&?&?)]].
  destruct (truthy f) as [file|]; simpl; [|by split; [|intros (?&?&?)]].
  destruct (mtimes w !! file) as [t|]; simpl; [|by split; [|intros (?&?&?)]].
  split.
  - intros [= H]. exists t. split; [done|]. by apply Z.gtb_lt.
  - intros (t' & [= <-] & Hlt). f_equal. by apply Z.gtb_lt.
Qed.

Lemma verdict_live w name info b :
  verdict w name info = Returns b → is_Some (sys_modules w !! name).
Proof.
  unfold verdict. destruct (sys_modules w !! name); [by eexists|done].
Qed.

(** C7, as stated, fails: the load time comes from [time.time()], the
    modification time from the file system, and nothing in the program
    relates the two. For a file whose modification time lies ahead of the
    clock, the reload returns, the refreshed load time is still smaller, and
    the next check reports the unit again. *)
Lemma reload_leaves_future_file_stale :
  get_stale_modules future_world = (Returns ["plugin"], future_world) ∧
  (reload_module "plugin" future_world).1 = Returns tt ∧
  get_stale_modules (reload_module "plugin" future_world).2 =
    (Returns ["plugin"], (reload_module "plugin" future_world).2) ∧
  ¬ reload_clears_stale.
Proof.
  split; [reflexivity|]. split; [reflexivity|]. split; [reflexivity|].
  intros H.
  apply (H future_world ["plugin"] "plugin"
           (reload_module "plugin" future_world).2 ["plugin"]);
    try reflexivity; apply list_elem_of_here.
Qed.

(** C7, amended: let a unit be reported by [get_stale_modules] and let
    [reload_module] return for it. If the clock reading taken by the refresh
    is not earlier than the modification time the unit's handle leads to,
    then in any later world where the registry is as the reload left it and
    that modification time is unchanged, every list returned by
    [get_stale_modules] omits the unit; and the scan returns such a list
    whenever no entry raises. *)
Theorem reload_clears_staleness w l0 name w1 w2 :
  Dict.wf (loaded_modules w) →
  get_stale_modules w = (Returns l0, w) →
  name ∈ l0 →
  reload_module name w = (Returns tt, w1) →
  (∀ t, mtime_of w name = Some t → t ≤ clock w (ticks w)) →
  loaded_modules w2 = loaded_modules w1 →
  mtime_of w2 name = mtime_of w name →
  (∀ l w', get_stale_modules w2 = (Returns l, w') → name ∉ l) ∧
  (scannable w2 → ∃ l, get_stale_modules w2 = (Returns l, w2) ∧ name ∉ l).
Proof.
  intros Hwf Hscan Hin Hreload Hclock Hreg Hfile.
  apply get_stale_modules_returns_inv in Hscan as (_ & _ & ->).
  apply stale_names_get in Hin as (info & Hget & Hv); [|done].
  pose proof (verdict_live _ _ _ _ Hv) as Hlive.
  apply reload_module_tracked_returns in Hreload;
    [|by apply DictFacts.contains_true|done].
  assert (Hfresh : ∀ l w', get_stale_modules w2 = (Returns l, w') → name ∉ l).
  { intros l w' (_ & _ & ->)%get_stale_modules_returns_inv Hin.
    apply stale_names_get in Hin as (info' & Hget' & Hv').
    - rewrite Hreg, Hreload in Hget'. simpl in Hget'.
      rewrite DictFacts.get_alter, decide_True, Hget in Hget' by done.
      injection Hget' as <-.
      apply verdict_mtime_of in Hv' as (t & Ht & Hlt).
      rewrite Hfile in Ht. apply Hclock in Ht. simpl in Hlt. lia.
    - rewrite Hreg, Hreload. simpl. by apply DictFacts.wf_alter. }
  split; [done|]. intros Hs. eexists. split.
  - by apply get_stale_modules_returns.
  - eapply Hfresh. by apply get_stale_modules_returns.
Qed.

Lemma reload_clears_staleness_witness :
  let w := plugin_world 150 in
  let w1 := (reload_module "plugin" w).2 in
  get_stale_modules w = (Returns ["plugin"], w) ∧
  reload_module "plugin" w = (Returns tt, w1) ∧
  get_stale_modules w1 = (Returns [], w1) ∧
  "plugin" ∉ @nil string.
Proof.
  intros w w1. split; [reflexivity|]. split; [reflexivity|].
  split; [reflexivity|].
  destruct (reload_clears_staleness w ["plugin"] "plugin" w1 w1) as [H _].
  - solve_wf.
  - reflexivity.
  - apply list_elem_of_here.
  - reflexivity.
  - intros t [= <-]. vm_compute. discriminate.
  - reflexivity.
  - reflexivity.
  - exact (H [] w1 eq_refl).
Defined.

Lemma contains_keys {V} k (d : list (string * V)) :
  Dict.contains k d = true ↔ k ∈ Dict.keys d.
Proof.
  destruct (Dict.contains k d) eqn:E.
  - split; [intros _|done]. destruct (decide (k ∈ Dict.keys d)) as [|Hn]; [done|].
    apply DictFacts.get_None_keys, DictFacts.contains_false in Hn. congruence.
  - split; [done|]. intros Hin. apply DictFacts.contains_false in E.
    by apply DictFacts.get_None_keys in E.
Qed.

Lemma stale_names_keys w d name : name ∈ stale_names w d → name ∈ Dict.keys d.
Proof.
  intros (info & Hin & _)%elem_of_stale_names.
  unfold Dict.keys. by apply (list_elem_of_fmap_2 fst) in Hin.
Qed.

Lemma stale_names_NoDup w d : Dict.wf d → NoDup (stale_names w d).
Proof.
  unfold Dict.wf, Dict.keys. induction d as [|[k v] d IH].
  - intros _. apply NoDup_nil_2.
  - rewrite fmap_cons. simpl. intros [Hk Hd]%NoDup_cons.
    unfold stale_names. destruct (found_stale w (k, v)) eqn:E.
    + rewrite filter_cons_True by done. rewrite fmap_cons. simpl.
      apply NoDup_cons. split; [|by apply IH].
      intros Hin. apply Hk. by apply (stale_names_keys w).
    + rewrite filter_cons_False by congruence. by apply IH.
Qed.



Lemma with_load_time_twice t t' info :
  with_load_time t (with_load_time t' info) = with_load_time t info.
Proof. done. Qed.

(** A batch of reloads of tracked, live units that all return. *)
Lemma for_each_reload_returns pre : ∀ w w1,
  for_each reload_module pre w = (Returns tt, w1) →
  (∀ p, p ∈ pre → p ∈ Dict.keys (loaded_modules w) ∧
                  is_Some (sys_modules w !! p)) →
  same_env w w1 ∧ reexecuted w1 = reexecuted w ++ pre ∧
  Dict.keys (loaded_modules w1) = Dict.keys (loaded_modules w) ∧
  (∀ k, k ∉ pre → Dict.get k (loaded_modules w1) = Dict.get k (loaded_modules w)) ∧
  (∀ p, p ∈ pre →
     ∃ info n, Dict.get p (loaded_modules w) = Some info ∧
               Dict.get p (loaded_modules w1) =
                 Some (with_load_time (clock w n) info)).
Proof.
  induction pre as [|p0 pre IH]; intros w w1 H Hall.
  - injection H as <-. split; [apply same_env_refl|].
    split; [by rewrite app_nil_r|]. split; [done|]. split; [done|].
    intros p Hp. by apply elem_of_nil in Hp.
  - simpl in H. unfold bind in H.
    destruct (reload_module p0 w) as [[[]|e] w0] eqn:E; [|done].
    destruct (Hall p0 (list_elem_of_here _ _)) as [Hk0 Hl0].
    apply reload_module_tracked_returns in E; [|by apply contains_keys|done].
    assert (Henv0 : same_env w w0) by (rewrite E; by repeat split).
    assert (Hkeys0 : Dict.keys (loaded_modules w0) = Dict.keys (loaded_modules w))
      by (rewrite E; apply DictFacts.keys_alter).
    assert (Hget0 : ∀ k, Dict.get k (loaded_modules w0) =
                      if decide (k = p0)
                      then with_load_time (clock w (ticks w)) <$>
                             Dict.get k (loaded_modules w)
                      else Dict.get k (loaded_modules w))
      by (intros k; rewrite E; apply DictFacts.get_alter).
    assert (Hlog0 : reexecuted w0 = reexecuted w ++ [p0]) by (by rewrite E).
    destruct (IH w0 w1 H) as (Henv & Hlog & Hkeys & Hother & Hpre).
    { intros p Hp. destruct (Hall p (list_elem_of_further _ _ _ Hp)) as [Hk Hl].
      rewrite Hkeys0. split; [done|].
      destruct Henv0 as (-> & _). done. }
    split; [by eapply same_env_trans|].
    split; [by rewrite Hlog, Hlog0, <- app_assoc|].
    split; [by rewrite Hkeys|]. split.
    + intros k [Hne Hk]%not_elem_of_cons.
      rewrite Hother, Hget0 by done. by rewrite decide_False.
    + assert (Hclock : clock w0 = clock w) by (by destruct Henv0 as (_&_&_&_&?)).
      intros p Hp. destruct (decide (p ∈ pre)) as [Hin|Hnin].
      * destruct (Hpre p Hin) as (info' & n & Hg & Hg1).
        rewrite Hget0 in Hg. rewrite Hclock in Hg1.
        destruct (decide (p = p0)) as [->|].
        -- destruct (Dict.get p0 (loaded_modules w)) as [info|]; [|done].
           injection Hg as <-. exists info, n. split; [done|].
           by rewrite Hg1, with_load_time_twice.
        -- by exists info', n.
      * apply elem_of_cons in Hp as [->|Hp]; [|done].
        rewrite Hother, Hget0, decide_True by done.
        apply contains_keys, DictFacts.contains_true in Hk0 as [info Hinfo].
        rewrite Hinfo. by exists info, (ticks w).
Qed.




(** ** The all-entries query *)

(** C8, as stated, fails: the caller holds the registry itself; an entry
    tracked after the call, and a load time refreshed after the call, show
    in what the call returned. *)
Lemma get_loaded_modules_is_live :
  (∀ r w0, get_loaded_modules empty_world = (Returns r, w0) →
     deref r empty_world = [] ∧
     deref r (track_module sample_spec w0).2 =
       [("pkg.mod", {| module_name := "pkg.mod"; path := "/tmp/pkg/mod.src";
                       load_time := 0 |})]) ∧
  (∀ r w0, get_loaded_modules (scenario_world 150) = (Returns r, w0) →
     deref r (scenario_world 150) = [("pkg.mod", sample_info)] ∧
     deref r (update_module_load_time "pkg.mod" w0).2 =
       [("pkg.mod", with_load_time 200 sample_info)]) ∧
  ¬ returns_snapshot.
Proof.
  split; [by intros r w0 [= <- <-]|]. split; [by intros r w0 [= <- <-]|].
  intros H.
  destruct (H empty_world LoadedModulesObject empty_world sample_spec "pkg.mod"
              eq_refl) as [Hins _].
  discriminate Hins.
Qed.

(** C8, amended: [get_loaded_modules] returns, without changing anything,
    a reference through which the caller reads, in every later world, the
    registry as it is then. *)
Theorem get_loaded_modules_alias w :
  ∃ r, get_loaded_modules w = (Returns r, w) ∧
       ∀ w', deref r w' = loaded_modules w'.
Proof. by exists LoadedModulesObject. Qed.

(** ** The registry along the runs of a process *)

Lemma registry_ok_env w w' :
  loaded_modules w' = loaded_modules w → clock w' = clock w →
  (ticks w ≤ ticks w')%nat → registry_ok w → registry_ok w'.
Proof.
  intros Hd Hc Ht [Hwf Hrec]. split; [by rewrite Hd|].
  intros k info Hg. rewrite Hd in Hg.
  destruct (Hrec k info Hg) as (Hn & Hp & n & Hlt & Hl).
  split; [done|]. split; [done|]. exists n. split; [lia|]. by rewrite Hc.
Qed.

Lemma advances_env w w' :
  loaded_modules w' = loaded_modules w → clock w' = clock w →
  (ticks w ≤ ticks w')%nat → advances w w'.
Proof.
  intros Hd Hc Ht. split; [done|]. split; [done|].
  split; [by rewrite Hd|]. split; [|by apply registry_ok_env].
  intros k info Hg. exists info. rewrite Hd. auto.
Qed.

Lemma advances_refl w : advances w w.
Proof. by apply advances_env. Qed.

Lemma advances_trans w1 w2 w3 : advances w1 w2 → advances w2 w3 → advances w1 w3.
Proof.
  intros (Hc1 & Ht1 & Hk1 & Hr1 & Ho1) (Hc2 & Ht2 & Hk2 & Hr2 & Ho2).
  split; [congruence|]. split; [lia|]. split; [by etrans|].
  split; [|auto].
  intros k info Hg.
  destruct (Hr1 k info Hg) as (info1 & Hg1 & Hn1 & Hp1 & Hl1).
  destruct (Hr2 k info1 Hg1) as (info2 & Hg2 & Hn2 & Hp2 & Hl2).
  exists info2. split; [done|]. split; [congruence|]. split; [congruence|].
  destruct Hl2 as [Hl2|(n & Hn & Hl2)].
  - destruct Hl1 as [Hl1|(n & Hn & Hl1)]; [left; congruence|].
    right. exists n. split; [lia|congruence].
  - right. exists n. split; [lia|]. by rewrite Hl2, Hc1.
Qed.

Lemma steady_ret {A} (a : A) : steady (ret a).
Proof. intros w r w' [= <- <-]. apply advances_refl. Qed.

Lemma steady_raise {A} e : steady (@raise A e).
Proof. intros w r w' [= <- <-]. apply advances_refl. Qed.

Lemma steady_bind {A B} (c : Py A) (k : A → Py B) :
  steady c → (∀ a, steady (k a)) → steady (bind c k).
Proof.
  intros Hc Hk w r w'. unfold bind.
  destruct (c w) as [[a|e] w1] eqn:E.
  - intros H. eapply advances_trans; [by eapply Hc|by eapply Hk].
  - intros [= <- <-]. by eapply Hc.
Qed.

Lemma steady_track_module spec : steady (track_module spec).
Proof.
  intros w r w' H.
  destruct (track_module_cases spec w) as [[_ E]|[(_&_&E)|(o&Hd&Ho&E)]];
    rewrite E in H; injection H as <- <-; try apply advances_refl.
  apply DictFacts.contains_false in Hd.
  split; [done|]. split; [simpl; lia|]. simpl. split.
  { unfold Dict.keys. rewrite fmap_app. by apply prefix_app_r. }
  split.
  - intros k info Hg. exists info. rewrite DictFacts.get_app, Hg. auto.
  - intros [Hwf Hrec]. split.
    + simpl. unfold new_record. rewrite <- DictFacts.set_absent by done.
      by apply DictFacts.wf_set_absent.
    + simpl. intros k info. rewrite DictFacts.get_app.
      destruct (Dict.get k (loaded_modules w)) as [info0|] eqn:Hg.
      * intros [= <-]. destruct (Hrec k info0 Hg) as (Hn & Hp & n & Hlt & Hl).
        split; [done|]. split; [done|]. exists n. split; [lia|done].
      * simpl. case_decide as Hk; [|done]. intros [= <-]. simpl.
        split; [done|]. split.
        -- unfold truthy in Ho. destruct (spec_origin spec) as [s|]; [|done].
           case_decide; [done|]. by injection Ho as <-.
        -- exists (ticks w). split; [lia|done].
Qed.

Lemma steady_update_module_load_time name : steady (update_module_load_time name).
Proof.
  intros w r w' H.
  destruct (Dict.contains name (loaded_modules w)) eqn:Hd.
  - rewrite update_module_load_time_tracked in H by done.
    injection H as <- <-.
    split; [done|]. split; [simpl; lia|]. simpl.
    split; [by rewrite DictFacts.keys_alter|]. split.
    + intros k info Hg. rewrite DictFacts.get_alter, Hg.
      case_decide; simpl; eexists; (split; [done|]); split; try done;
        split; try done; [|by left].
      right. exists (ticks w). split; [lia|done].
    + intros [Hwf Hrec]. split; [by apply DictFacts.wf_alter|].
      simpl. intros k info. rewrite DictFacts.get_alter.
      destruct (Dict.get k (loaded_modules w)) as [info0|] eqn:Hg;
        [|by case_decide].
      destruct (Hrec k info0 Hg) as (Hn & Hp & n & Hlt & Hl).
      case_decide; simpl; intros [= <-]; simpl.
      * split; [done|]. split; [done|]. exists (ticks w). split; [lia|done].
      * split; [done|]. split; [done|]. exists n. split; [lia|done].
  - rewrite update_module_load_time_untracked in H by done.
    injection H as <- <-. apply advances_refl.
Qed.

Lemma steady_find_spec fullname : steady (find_spec fullname).
Proof.
  intros w r w'. rewrite find_spec_resolve.
  destruct (resolve (meta_path_tail w) fullname) as [[spec|]|e].
  - apply steady_bind; [apply steady_track_module|intros; apply steady_ret].
  - intros [= <- <-]. apply advances_refl.
  - intros [= <- <-]. apply advances_refl.
Qed.

Lemma steady_exec_module name : steady (exec_module name).
Proof.
  intros w r w'. unfold exec_module.
  destruct (top_level w name); intros [= <- <-];
    [apply advances_refl|by apply advances_env].
Qed.

Lemma steady_importlib_reload name : steady (importlib_reload name).
Proof.
  intros w r w'. unfold importlib_reload.
  destruct (parent_ready w name); [|apply steady_raise].
  revert w r w'. change (steady (resolve_and_exec name)).
  apply steady_bind; [apply steady_find_spec|].
  intros [spec|]; [|apply steady_raise].
  case_decide; [apply steady_exec_module|apply steady_raise].
Qed.

Lemma steady_reload_module name : steady (reload_module name).
Proof.
  apply steady_bind.
  - intros w r w' [= <- <-]. apply advances_refl.
  - intros [|]; [|apply steady_ret].
    apply steady_bind; [apply steady_importlib_reload|].
    intros _. apply steady_update_module_load_time.
Qed.

Lemma steady_for_each {A} (body : A → Py unit) l :
  (∀ x, steady (body x)) → steady (for_each body l).
Proof.
  intros Hb. induction l as [|x l IH]; [apply steady_ret|].
  simpl. apply steady_bind; auto.
Qed.

Lemma steady_get_stale_modules : steady get_stale_modules.
Proof.
  intros w r w' H. pose proof (get_stale_modules_world w) as Hw.
  rewrite H in Hw. simpl in Hw. subst w'. apply advances_refl.
Qed.

Lemma steady_reload_stale_modules : steady reload_stale_modules.
Proof.
  apply steady_bind; [apply steady_get_stale_modules|].
  intros l. apply steady_for_each. apply steady_reload_module.
Qed.

Lemma perform_advances c w : advances w (perform c w).
Proof.
  destruct c; simpl.
  - eapply steady_track_module, surjective_pairing.
  - eapply steady_update_module_load_time, surjective_pairing.
  - apply advances_refl.
  - eapply steady_reload_module, surjective_pairing.
  - eapply steady_get_stale_modules, surjective_pairing.
  - eapply steady_reload_stale_modules, surjective_pairing.
  - eapply steady_find_spec, surjective_pairing.
Qed.

Lemma step_advances w w' : step w w' → advances w w'.
Proof.
  intros [c w0|w0 w1 (Hd & Hc & Ht)]; [apply perform_advances|].
  by apply advances_env.
Qed.

Lemma steps_advance w w' : rtc step w w' → advances w w'.
Proof.
  induction 1 as [|w1 w2 w3 H _ IH]; [apply advances_refl|].
  eapply advances_trans; [by apply step_advances|done].
Qed.

Lemma registry_ok_initial w : loaded_modules w = [] → registry_ok w.
Proof.
  intros H0. split.
  - rewrite H0. apply NoDup_nil_2.
  - intros k info. by rewrite H0.
Qed.

Lemma steps_keep_registry_ok w w' : rtc step w w' → registry_ok w → registry_ok w'.
Proof. by intros (_ & _ & _ & _ & Hok)%steps_advance. Qed.

(** X14: in every state a process can reach from the empty registry, by
    calls of the module's functions in any order and with any outcome and
    by changes of the environment in between, the registry holds each name
    once, every record carries the name it is stored under and a non-empty
    path, and every load time is a reading the clock has given. *)
Theorem reachable_registry_ok w : reachable w → registry_ok w.
Proof.
  intros (w0 & H0 & Hsteps).
  eapply steps_keep_registry_ok; [done|]. by apply registry_ok_initial.
Qed.

Lemma reachable_registry_ok_witness :
  registry_ok (perform (CallFindSpec "pkg.mod") crowded_world).
Proof.
  apply reachable_registry_ok. exists crowded_world. split; [reflexivity|].
  apply rtc_once. apply step_call.
Defined.

(** X15: no call ever removes or reorders an entry, or changes the name
    or the path of a record: along any run the names tracked at the start
    stay a prefix of the names tracked later, and each record keeps its
    name and path. *)
Theorem registry_only_grows w w' :
  rtc step w w' →
  Dict.keys (loaded_modules w) `prefix_of` Dict.keys (loaded_modules w') ∧
  ∀ k info, Dict.get k (loaded_modules w) = Some info →
    ∃ info', Dict.get k (loaded_modules w') = Some info' ∧
             module_name info' = module_name info ∧ path info' = path info.
Proof.
  intros (_ & _ & Hk & Hr & _)%steps_advance. split; [done|].
  intros k info Hg. destruct (Hr k info Hg) as (info' & ? & ? & ? & _).
  by exists info'.
Qed.

Lemma registry_only_grows_witness :
  let w := scenario_world 150 in
  let w' := perform CallReloadStaleModules
              (perform (CallTrackModule nameless_spec) w) in
  Dict.keys (loaded_modules w) `prefix_of` Dict.keys (loaded_modules w').
Proof.
  intros w w'. apply (registry_only_grows w w').
  eapply rtc_l; [apply step_call|]. apply rtc_once, step_call.
Defined.

(** X16: with a clock that never runs backwards, starting from an orderly
    registry, no run ever lowers the load time of a record. *)
Theorem load_time_never_decreases w w' k info info' :
  monotone_clock w →
  registry_ok w →
  rtc step w w' →
  Dict.get k (loaded_modules w) = Some info →
  Dict.get k (loaded_modules w') = Some info' →
  load_time info ≤ load_time info'.
Proof.
  intros Hmono [_ Hrec] (_ & _ & _ & Hr & _)%steps_advance Hg Hg'.
  destruct (Hr k info Hg) as (info1 & Hg1 & _ & _ & Hl).
  rewrite Hg' in Hg1. injection Hg1 as <-.
  destruct Hl as [->|(n & Hn & ->)]; [lia|].
  destruct (Hrec k info Hg) as (_ & _ & m & Hm & ->).
  apply Hmono. lia.
Qed.

Lemma load_time_never_decreases_witness :
  let w := perform (CallFindSpec "plugin") plugin_early_world in
  let w' := perform (CallReloadModule "plugin") w in
  Dict.get "plugin" (loaded_modules w) =
    Some {| module_name := "plugin"; path := "/tmp/plugin.src";
            load_time := 200 |} ∧
  Dict.get "plugin" (loaded_modules w') =
    Some {| module_name := "plugin"; path := "/tmp/plugin.src";
            load_time := 201 |} ∧
  200 ≤ 201.
Proof.
  intros w w'. split; [reflexivity|]. split; [reflexivity|].
  apply (load_time_never_decreases w w' "plugin"
           {| module_name := "plugin"; path := "/tmp/plugin.src";
              load_time := 200 |}
           {| module_name := "plugin"; path := "/tmp/plugin.src";
              load_time := 201 |}).
  - intros n m Hnm. simpl. lia.
  - eapply steps_keep_registry_ok; [apply rtc_once, step_call|].
    by apply registry_ok_initial.
  - apply rtc_once, step_call.
  - reflexivity.
  - reflexivity.
Defined.

(** ** More on the interceptor and the registry operations *)

(** X1: the interceptor is transparent. When [find_spec] returns, it
    returns exactly what the resolvers behind it answer on their own (a spec
    or [None]); when it raises, either the resolvers raised that exception,
    or it is the [AssertionError] of [track_module] for an untracked spec
    without source location. *)
Theorem find_spec_transparent fullname w r w' :
  find_spec fullname w = (r, w') →
  match r with
  | Returns answer => resolve (meta_path_tail w) fullname = Returns answer
  | Raises e =>
      resolve (meta_path_tail w) fullname = Raises e ∨
      ∃ spec, e = AssertionError ∧
              resolve (meta_path_tail w) fullname = Returns (Some spec) ∧
              Dict.contains (spec_name spec) (loaded_modules w) = false ∧
              truthy (spec_origin spec) = None
  end.
Proof.
  rewrite find_spec_resolve.
  destruct (resolve (meta_path_tail w) fullname) as [[spec|]|e] eqn:R.
  - unfold bind, ret.
    destruct (track_module_cases spec w) as [[_ E]|[(Hd&Ho&E)|(o&_&_&E)]];
      rewrite E; intros [= <- <-]; [done| |done].
    right. by exists spec.
  - by intros [= <- <-].
  - intros [= <- <-]. by left.
Qed.

Lemma find_spec_transparent_witness :
  resolve (meta_path_tail crowded_world) "pkg.mod" = Returns (Some sample_spec).
Proof.
  apply (find_spec_transparent "pkg.mod" crowded_world (Returns (Some sample_spec))
           (find_spec "pkg.mod" crowded_world).2).
  reflexivity.
Defined.

(** X2: a call of [find_spec] leaves the whole state as it is, or it
    returns a spec that was not tracked and has a source location, and then
    the only changes are one clock reading taken and one record appended to
    the registry, for that spec, with the origin as path and the reading as
    load time. *)
Theorem find_spec_records_at_most_one fullname w r w' :
  find_spec fullname w = (r, w') →
  w' = w ∨
  ∃ spec origin,
    r = Returns (Some spec) ∧
    Dict.contains (spec_name spec) (loaded_modules w) = false ∧
    truthy (spec_origin spec) = Some origin ∧
    w' = set_loaded_modules
           (loaded_modules w ++
              [(spec_name spec,
                {| module_name := spec_name spec; path := origin;
                   load_time := clock w (ticks w) |})])
           (set_ticks (S (ticks w)) w).
Proof.
  rewrite find_spec_resolve.
  destruct (resolve (meta_path_tail w) fullname) as [[spec|]|e] eqn:R.
  - unfold bind, ret.
    destruct (track_module_cases spec w) as [[_ E]|[(Hd&Ho&E)|(o&Hd&Ho&E)]];
      rewrite E; intros [= <- <-]; [by left|by left|].
    right. by exists spec, o.
  - intros [= <- <-]. by left.
  - intros [= <- <-]. by left.
Qed.

Lemma find_spec_records_at_most_one_witness :
  loaded_modules (find_spec "pkg.mod" crowded_world).2 =
    [("pkg.mod", {| module_name := "pkg.mod"; path := "/tmp/pkg/mod.src";
                    load_time := 200 |})].
Proof.
  destruct (find_spec_records_at_most_one "pkg.mod" crowded_world
              (find_spec "pkg.mod" crowded_world).1
              (find_spec "pkg.mod" crowded_world).2 eq_refl)
    as [H|(spec & origin & Hr & _ & Ho & H)].
  - reflexivity.
  - reflexivity.
Defined.

Lemma find_spec_loop_silent pre fullname rest w :
  Forall (silent fullname) pre →
  find_spec_loop (pre ++ rest) fullname w = find_spec_loop rest fullname w.
Proof.
  induction 1 as [|[|f] pre Hf _ IH]; simpl; [done|done|].
  simpl in Hf. by rewrite Hf.
Qed.

(** X3: the first resolver with an answer decides. Resolvers without
    [find_spec] and resolvers answering [None] are passed over, and once a
    resolver answers with a spec, that spec is tracked and returned; the
    resolvers after it are not asked, whatever they would do. *)
Theorem find_spec_first_answer_wins w fullname pre f spec post :
  meta_path_tail w = pre ++ HasFindSpec f :: post →
  Forall (silent fullname) pre →
  f fullname = Returns (Some spec) →
  find_spec fullname w =
    match track_module spec w with
    | (Returns _, w') => (Returns (Some spec), w')
    | (Raises e, w') => (Raises e, w')
    end.
Proof.
  intros Hpath Hpre Hf. unfold find_spec. unfold bind at 1.
  unfold read_meta_path_tail. rewrite Hpath.
  rewrite find_spec_loop_silent by done. simpl. rewrite Hf.
  unfold bind, ret. by destruct (track_module spec w) as [[[]|e] w'].
Qed.

Lemma find_spec_first_answer_wins_witness :
  (find_spec "pkg.mod" crowded_world).1 = Returns (Some sample_spec).
Proof.
  rewrite (find_spec_first_answer_wins crowded_world "pkg.mod"
             [NoFindSpec; HasFindSpec (λ _, Returns None)]
             sample_finder sample_spec
             [HasFindSpec (λ _, Raises (FinderError "never asked"))]).
  - reflexivity.
  - reflexivity.
  - repeat constructor.
  - reflexivity.
Defined.

(** X4: [track_module] either returns, and then the spec's name is in the
    registry, or raises [AssertionError] without changing anything; it
    raises only for a name that is not tracked with an origin that is [None]
    or empty. *)
Theorem track_module_outcomes spec w r w' :
  track_module spec w = (r, w') →
  (r = Returns tt ∧
   Dict.contains (spec_name spec) (loaded_modules w') = true) ∨
  (r = Raises AssertionError ∧ w' = w ∧
   Dict.contains (spec_name spec) (loaded_modules w) = false ∧
   truthy (spec_origin spec) = None).
Proof.
  destruct (track_module_cases spec w) as [[Hd E]|[(Hd&Ho&E)|(o&Hd&Ho&E)]];
    rewrite E; intros [= <- <-]; [by left|by right|].
  left. split; [done|]. apply DictFacts.contains_true. simpl.
  rewrite DictFacts.get_app. apply DictFacts.contains_false in Hd.
  rewrite Hd. simpl. rewrite decide_True by done. by eexists.
Qed.

Lemma track_module_outcomes_witness :
  Dict.contains "virtual" (loaded_modules empty_world) = false ∧
  truthy (spec_origin virtual_spec) = None.
Proof.
  destruct (track_module_outcomes virtual_spec empty_world
              (Raises AssertionError) empty_world eq_refl)
    as [[H _]|(_ & _ & Hd & Ho)]; [discriminate H|].
  split; [exact Hd|exact Ho].
Defined.

(** X5: [update_module_load_time] always returns. It keeps the names and
    their order, the records of all other names, and the name and path of
    the named record, whose load time becomes the clock's reading; for a
    name that is not tracked it changes nothing at all. *)
Theorem update_module_load_time_touches_one name w :
  ∃ w', update_module_load_time name w = (Returns tt, w') ∧
    same_env w w' ∧
    Dict.keys (loaded_modules w') = Dict.keys (loaded_modules w) ∧
    (∀ k, k ≠ name →
       Dict.get k (loaded_modules w') = Dict.get k (loaded_modules w)) ∧
    (∀ info, Dict.get name (loaded_modules w) = Some info →
       Dict.get name (loaded_modules w') =
         Some {| module_name := module_name info; path := path info;
                 load_time := clock w (ticks w) |}) ∧
    (Dict.get name (loaded_modules w) = None → w' = w).
Proof.
  destruct (update_module_load_time_frame name w)
    as (w' & E & Henv & _ & Hk & Hother & Hname).
  exists w'. split; [done|]. split; [done|]. split; [done|].
  split; [done|]. split.
  - intros info Hg. by rewrite Hname, Hg.
  - intros Hg. apply DictFacts.contains_false in Hg.
    rewrite update_module_load_time_untracked in E by done.
    by injection E as <-.
Qed.

(** ** More on the staleness check and the reloads *)

(** X6: [get_stale_modules] only reads: whether it returns or raises, it
    leaves the whole state, the registry included, exactly as it was. *)
Theorem get_stale_modules_read_only w r w' :
  get_stale_modules w = (r, w') → w' = w.
Proof.
  intros H. pose proof (get_stale_modules_world w) as Hw.
  by rewrite H in Hw.
Qed.

Lemma get_stale_modules_read_only_witness :
  (get_stale_modules unloaded_world).2 = unloaded_world.
Proof.
  apply (get_stale_modules_read_only unloaded_world
           (get_stale_modules unloaded_world).1).
  reflexivity.
Defined.

Lemma stale_names_sublist w d : stale_names w d `sublist_of` Dict.keys d.
Proof.
  unfold stale_names, Dict.keys. induction d as [|e d IH]; [done|].
  destruct (decide (found_stale w e = true)).
  - rewrite filter_cons_True by done. rewrite !fmap_cons.
    by apply sublist_skip.
  - rewrite filter_cons_False by done. rewrite fmap_cons.
    by apply sublist_cons.
Qed.

(** X7: the list returned by [get_stale_modules] holds tracked names
    only, in the order in which they were tracked, and, the registry holding
    each name once, holds none of them twice. *)
Theorem get_stale_modules_in_registry_order w l w' :
  get_stale_modules w = (Returns l, w') →
  l `sublist_of` Dict.keys (loaded_modules w) ∧
  (Dict.wf (loaded_modules w) → NoDup l).
Proof.
  intros (_ & _ & ->)%get_stale_modules_returns_inv. split.
  - apply stale_names_sublist.
  - apply stale_names_NoDup.
Qed.

Lemma get_stale_modules_in_registry_order_witness :
  ["a"; "b"] `sublist_of` Dict.keys (loaded_modules two_units_world) ∧
  NoDup ["a"; "b"].
Proof.
  destruct (get_stale_modules_in_registry_order two_units_world ["a"; "b"]
              two_units_world eq_refl) as [H1 H2].
  split; [exact H1|]. apply H2. solve_wf.
Defined.

Lemma verdict_load_time w k info info' :
  load_time info' = load_time info → verdict w k info' = verdict w k info.
Proof. intros H. unfold verdict. by rewrite H. Qed.

(** The outcome of the scan depends on the world through [sys.modules]
    and the file system only. *)
Lemma stale_loop_env items : ∀ acc w w2,
  sys_modules w2 = sys_modules w → mtimes w2 = mtimes w →
  (stale_loop items acc w2).1 = (stale_loop items acc w).1.
Proof.
  induction items as [|[k info] items IH]; intros acc w w2 Hs Hm; [done|].
  rewrite !stale_loop_cons.
  assert (verdict w2 k info = verdict w k info) as ->
    by (unfold verdict; by rewrite Hs, Hm).
  destruct (verdict w k info) as [[|]|e]; auto.
Qed.

Lemma stale_loop_skip pre e post : ∀ acc w,
  verdict w e.1 e.2 = Returns false →
  stale_loop (pre ++ e :: post) acc w = stale_loop (pre ++ post) acc w.
Proof.
  induction pre as [|[k info] pre IH]; intros acc w Hv.
  - destruct e as [k info]. simpl in Hv. simpl app.
    by rewrite stale_loop_cons, Hv.
  - simpl app. rewrite !stale_loop_cons.
    destruct (verdict w k info) as [[|]|e0]; auto.
Qed.

(** X8: a tracked unit whose handle has a [__file__] that is [None] or
    empty is passed over by [get_stale_modules]: the outcome is the one the
    scan has with that entry taken out of the registry, so the unit is never
    reported and never makes the scan raise. *)
Theorem get_stale_modules_skips_fileless w pre name info post m module_file :
  loaded_modules w = pre ++ (name, info) :: post →
  sys_modules w !! name = Some m →
  mod_file m = Some module_file →
  truthy module_file = None →
  (get_stale_modules w).1 =
    (get_stale_modules (set_loaded_modules (pre ++ post) w)).1.
Proof.
  intros Hd Hm Hf Ht. unfold get_stale_modules. py_unfold. simpl.
  rewrite Hd. rewrite stale_loop_skip.
  - symmetry. by apply stale_loop_env.
  - unfold verdict. simpl. by rewrite Hm, Hf, Ht.
Qed.

Lemma get_stale_modules_skips_fileless_witness :
  (get_stale_modules fileless_world).1 = Returns ["pkg.mod"].
Proof.
  rewrite (get_stale_modules_skips_fileless fileless_world []
             "builtin" {| module_name := "builtin"; path := "built-in";
                          load_time := 100 |}
             [("pkg.mod", sample_info)] {| mod_file := Some None |} None);
    reflexivity.
Defined.

(** X9: the staleness check does not look at the path recorded in the
    registry (it follows the handle's [__file__]): registries with the same
    names, in the same order, and the same load times give the same
    outcome. *)
Theorem get_stale_modules_ignores_path w d :
  Forall2 (λ e e', e'.1 = e.1 ∧ load_time e'.2 = load_time e.2)
    (loaded_modules w) d →
  (get_stale_modules (set_loaded_modules d w)).1 = (get_stale_modules w).1.
Proof.
  intros H. unfold get_stale_modules. py_unfold. simpl.
  rewrite (stale_loop_env d [] w (set_loaded_modules d w)) by done.
  generalize (@nil string).
  induction H as [|[k info] [k' info'] d1 d2 [Hk Hl] _ IH]; intros acc; [done|].
  simpl in Hk, Hl. subst k'. rewrite !stale_loop_cons.
  rewrite (verdict_load_time w k info info') by done.
  destruct (verdict w k info) as [[|]|e]; auto.
Qed.

Lemma get_stale_modules_ignores_path_witness :
  (get_stale_modules
     (set_loaded_modules
        [("pkg.mod", {| module_name := "pkg.mod"; path := "/moved/mod.src";
                        load_time := 100 |})]
        (scenario_world 150))).1 = Returns ["pkg.mod"].
Proof.
  rewrite (get_stale_modules_ignores_path (scenario_world 150)).
  - reflexivity.
  - repeat constructor.
Defined.

Lemma stale_names_none w d :
  (∀ k info, (k, info) ∈ d → verdict w k info = Returns false) →
  stale_names w d = [].
Proof.
  intros H. destruct (stale_names w d) as [|x l] eqn:E; [done|].
  assert (x ∈ stale_names w d) as (info & Hin & Hv)%elem_of_stale_names
    by (rewrite E; apply list_elem_of_here).
  rewrite (H x info Hin) in Hv. done.
Qed.

Lemma scannable_fresh w :
  (∀ k info, (k, info) ∈ loaded_modules w → verdict w k info = Returns false) →
  get_stale_modules w = (Returns [], w).
Proof.
  intros H. rewrite get_stale_modules_returns.
  - by rewrite stale_names_none.
  - apply Forall_forall. intros [k info] Hin. exists false. by apply H.
Qed.

(** X10: when no tracked unit is found stale, [reload_stale_modules]
    returns and changes nothing; when the staleness scan raises,
    [reload_stale_modules] raises the same exception and changes nothing. *)
Theorem reload_stale_modules_nothing_to_do w :
  ((∀ k info, (k, info) ∈ loaded_modules w → verdict w k info = Returns false) →
   reload_stale_modules w = (Returns tt, w)) ∧
  (∀ e, (get_stale_modules w).1 = Raises e →
        reload_stale_modules w = (Raises e, w)).
Proof.
  split.
  - intros H. unfold reload_stale_modules, bind.
    by rewrite scannable_fresh.
  - intros e H. unfold reload_stale_modules, bind.
    pose proof (get_stale_modules_world w) as Hw.
    destruct (get_stale_modules w) as [[l|e'] w0]; simpl in *; [done|].
    by injection H as ->; subst.
Qed.

Lemma reload_stale_modules_nothing_to_do_witness :
  reload_stale_modules (scenario_world 100) = (Returns tt, scenario_world 100) ∧
  reload_stale_modules unloaded_world =
    (Raises (KeyError "pkg.mod"), unloaded_world).
Proof.
  destruct (reload_stale_modules_nothing_to_do (scenario_world 100)) as [H1 _].
  destruct (reload_stale_modules_nothing_to_do unloaded_world) as [_ H2].
  split.
  - apply H1. intros k info [[= -> ->]|H]%elem_of_cons; [reflexivity|].
    by apply elem_of_nil in H.
  - apply H2. reflexivity.
Defined.

Lemma reload_module_other name w r w' k info :
  reload_module name w = (r, w') →
  k ≠ name →
  Dict.get k (loaded_modules w) = Some info →
  Dict.get k (loaded_modules w') = Some info.
Proof.
  intros H Hne Hg.
  destruct (sys_modules w !! name) as [m|] eqn:Hm;
    [|rewrite reload_module_not_live in H by done; by injection H as <- <-].
  rewrite (reload_module_live name m) in H by done. unfold bind in H.
  destruct (importlib_reload name w) as [[[]|e] w1] eqn:E;
    pose proof (importlib_reload_frame _ _ _ _ E) as (_ & Hkeep & _).
  - destruct (update_module_load_time_frame name w1)
      as (w2 & E2 & _ & _ & _ & Hother & _).
    rewrite E2 in H. injection H as <- <-. rewrite Hother by done. auto.
  - injection H as <- <-. auto.
Qed.

Lemma for_each_reload_other l : ∀ w r w' k info,
  for_each reload_module l w = (r, w') →
  k ∉ l →
  Dict.get k (loaded_modules w) = Some info →
  Dict.get k (loaded_modules w') = Some info.
Proof.
  induction l as [|p l IH]; intros w r w' k info H Hk Hg.
  - by injection H as <- <-.
  - apply not_elem_of_cons in Hk as [Hne Hk]. simpl in H. unfold bind in H.
    destruct (reload_module p w) as [[[]|e] w1] eqn:E.
    + eapply IH; [done|done|]. by eapply reload_module_other.
    + injection H as <- <-. by eapply reload_module_other.
Qed.

(** X12: whatever its outcome, [reload_stale_modules] leaves the record
    of every tracked unit that the scan did not report stale as it was. *)
Theorem reload_stale_modules_frame w l w0 r w' k info :
  get_stale_modules w = (Returns l, w0) →
  reload_stale_modules w = (r, w') →
  k ∉ l →
  Dict.get k (loaded_modules w) = Some info →
  Dict.get k (loaded_modules w') = Some info.
Proof.
  intros Hscan H Hk Hg.
  pose proof Hscan as (_ & -> & _)%get_stale_modules_returns_inv.
  unfold reload_stale_modules, bind in H. rewrite Hscan in H.
  by eapply for_each_reload_other.
Qed.

Lemma reload_stale_modules_frame_witness :
  Dict.get "builtin" (loaded_modules (reload_stale_modules fileless_world).2) =
    Some {| module_name := "builtin"; path := "built-in"; load_time := 100 |}.
Proof.
  apply (reload_stale_modules_frame fileless_world ["pkg.mod"] fileless_world
           (reload_stale_modules fileless_world).1).
  - reflexivity.
  - reflexivity.
  - apply not_elem_of_cons. split; [discriminate|apply not_elem_of_nil].
  - reflexivity.
Defined.

(** X13: a call of [reload_module] that raises leaves every record of
    the registry as it was (no load time is refreshed) and re-executes
    nothing to completion. *)
Theorem reload_module_failure_keeps name w e w' :
  reload_module name w = (Raises e, w') →
  (∀ k info, Dict.get k (loaded_modules w) = Some info →
             Dict.get k (loaded_modules w') = Some info) ∧
  reexecuted w' = reexecuted w.
Proof.
  intros (_ & Hlog & Hkeep & _)%reload_module_raises. split; [|done].
  exact Hkeep.
Qed.

Lemma reload_module_failure_keeps_witness :
  (reload_module "a" two_units_world).1 = Raises (ExecError "a" "boom") ∧
  Dict.get "a" (loaded_modules (reload_module "a" two_units_world).2) =
    Some {| module_name := "a"; path := "/src/a"; load_time := 100 |}.
Proof.
  split; [reflexivity|].
  destruct (reload_module_failure_keeps "a" two_units_world
              (ExecError "a" "boom") (reload_module "a" two_units_world).2
              eq_refl) as [H _].
  apply H. reflexivity.
Defined.

(** What a scan that does not raise says about an entry, in terms of the
    file the handle leads to. *)
Lemma verdict_Returns w k info b :
  verdict w k info = Returns b →
  b = match mtime_of w k with
      | Some t => t >? load_time info
      | None => false
      end.
Proof.
  unfold verdict, mtime_of.
  destruct (sys_modules w !! k) as [m|]; simpl; [|done].
  destruct (mod_file m) as [f|]; simpl; [|done].
  destruct (truthy f) as [file|]; simpl; [|by intros [= <-]].
  destruct (mtimes w !! file) as [t|]; simpl; [|done].
  by intros [= <-].
Qed.

Lemma verdict_Returns_any w k info info' b :
  verdict w k info = Returns b → ∃ b', verdict w k info' = Returns b'.
Proof.
  unfold verdict.
  destruct (sys_modules w !! k) as [m|]; [|done].
  destruct (mod_file m) as [f|]; [|done].
  destruct (truthy f) as [file|]; [|by eexists].
  destruct (mtimes w !! file) as [t|]; [|done]. by eexists.
Qed.

Lemma mtime_of_same_env w w' k : same_env w w' → mtime_of w' k = mtime_of w k.
Proof. intros (Hs & _ & Hm & _). unfold mtime_of. by rewrite Hs, Hm. Qed.

(** After a batch of reloads that all return, each reloaded unit carries
    a reading taken during the batch. *)
Lemma for_each_reload_stamps l : ∀ w w1,
  for_each reload_module l w = (Returns tt, w1) →
  (∀ p, p ∈ l → p ∈ Dict.keys (loaded_modules w) ∧
                is_Some (sys_modules w !! p)) →
  ∀ p, p ∈ l →
    ∃ info' n, Dict.get p (loaded_modules w1) = Some info' ∧
               (ticks w ≤ n)%nat ∧ load_time info' = clock w n.
Proof.
  induction l as [|p0 l IH]; intros w w1 H Hall p Hp.
  - by apply elem_of_nil in Hp.
  - simpl in H. unfold bind in H.
    destruct (reload_module p0 w) as [[[]|e] w0] eqn:E; [|done].
    destruct (Hall p0 (list_elem_of_here _ _)) as [Hk0 Hl0].
    apply reload_module_tracked_returns in E; [|by apply contains_keys|done].
    assert (Hclock : clock w0 = clock w) by (by rewrite E).
    assert (Hticks : ticks w0 = S (ticks w)) by (by rewrite E).
    destruct (decide (p ∈ l)) as [Hin|Hnin].
    + destruct (IH w0 w1 H) with (p := p) as (info' & n & Hg & Hn & Hlt);
        [|done|].
      * intros q Hq.
        destruct (Hall q (list_elem_of_further _ _ _ Hq)) as [Hk Hl].
        rewrite E. simpl. by rewrite DictFacts.keys_alter.
      * exists info', n. split; [done|]. split; [lia|]. by rewrite <- Hclock.
    + apply elem_of_cons in Hp as [->|Hp]; [|done].
      apply contains_keys, DictFacts.contains_true in Hk0 as [info Hinfo].
      assert (Hg0 : Dict.get p0 (loaded_modules w0) =
                      Some (with_load_time (clock w (ticks w)) info)).
      { rewrite E. simpl. rewrite DictFacts.get_alter, decide_True by done.
        by rewrite Hinfo. }
      pose proof (steady_for_each reload_module l steady_reload_module
                    w0 _ w1 H) as (_ & _ & _ & Hr & _).
      destruct (Hr _ _ Hg0) as (info' & Hg' & _ & _ & Hl).
      destruct Hl as [Hl|(n & Hn & Hl)].
      * exists info', (ticks w). split; [done|]. split; [lia|]. by rewrite Hl.
      * exists info', n. split; [done|]. split; [lia|]. by rewrite Hl, Hclock.
Qed.

(** X11: when [reload_stale_modules] returns, it has re-executed exactly
    the units the scan reported, in that order, and each of them carries a
    clock reading taken during the call. If no reading taken from the call
    on is earlier than the modification time of a tracked unit's file, then
    in any later world with the registry as the call left it, in which every
    entry can be scanned and every tracked unit leads to a file with the
    modification time it had, [get_stale_modules] returns the empty
    list. *)
Theorem reload_stale_modules_clears w w' :
  Dict.wf (loaded_modules w) →
  reload_stale_modules w = (Returns tt, w') →
  ∃ l, get_stale_modules w = (Returns l, w) ∧
       reexecuted w' = reexecuted w ++ l ∧
       (∀ p, p ∈ l →
          ∃ info' n, Dict.get p (loaded_modules w') = Some info' ∧
                     (ticks w ≤ n)%nat ∧ load_time info' = clock w n) ∧
       ∀ w2,
         (∀ name t n, name ∈ Dict.keys (loaded_modules w) →
            mtime_of w name = Some t → (ticks w ≤ n)%nat → t ≤ clock w n) →
         loaded_modules w2 = loaded_modules w' →
         scannable w2 →
         (∀ name, name ∈ Dict.keys (loaded_modules w) →
                  mtime_of w2 name = mtime_of w name) →
         get_stale_modules w2 = (Returns [], w2).
Proof.
  intros Hwf H. unfold reload_stale_modules, bind in H.
  destruct (get_stale_modules w) as [[l|e] w0] eqn:Hscan; [|done].
  pose proof Hscan as (Hs & -> & Hl)%get_stale_modules_returns_inv.
  exists l. split; [done|].
  assert (Hstale : ∀ p, p ∈ l →
            p ∈ Dict.keys (loaded_modules w) ∧ is_Some (sys_modules w !! p)).
  { intros p Hp. rewrite Hl in Hp.
    apply stale_names_get in Hp as (info & Hg & Hv); [|done].
    split; [|by eapply verdict_live].
    apply contains_keys, DictFacts.contains_true. by eexists. }
  destruct (for_each_reload_returns l w w' H Hstale)
    as (_ & Hlog & Hkeys & Hother & _).
  split; [done|]. split; [by apply for_each_reload_stamps|].
  intros w2 Hclock Hreg Hs2 Hfiles.
  apply scannable_fresh. intros k info' Hin.
  assert (Hwf2 : Dict.wf (loaded_modules w2))
    by (unfold Dict.wf; by rewrite Hreg, Hkeys).
  pose proof Hin as Hv2. apply Forall_forall with (x := (k, info')) in Hs2;
    [|done]. destruct Hs2 as [b' Hb']. simpl in Hb'.
  apply DictFacts.elem_get_Some in Hin; [|done]. rewrite Hreg in Hin.
  assert (Hk : k ∈ Dict.keys (loaded_modules w)).
  { rewrite <- Hkeys. apply contains_keys, DictFacts.contains_true.
    by eexists. }
  pose proof Hk as [info Hg]%contains_keys%DictFacts.contains_true.
  rewrite Hb'. f_equal. apply verdict_Returns in Hb' as ->.
  rewrite Hfiles by done.
  destruct (mtime_of w k) as [t|] eqn:Ht; [|done].
  destruct (decide (k ∈ l)) as [Hkl|Hkl].
  - destruct (for_each_reload_stamps l w w' H Hstale k Hkl)
      as (info'' & n & Hg'' & Hn & Hlt).
    rewrite Hin in Hg''. injection Hg'' as <-.
    rewrite Hlt, Z.gtb_ltb. apply Z.ltb_ge. by apply (Hclock k).
  - rewrite Hother, Hg in Hin by done. injection Hin as <-.
    assert (∃ b, verdict w k info = Returns b) as [b Hv].
    { unfold scannable in Hs. rewrite Forall_forall in Hs.
      apply (Hs (k, info)). by apply DictFacts.get_Some_elem. }
    destruct b.
    + exfalso. apply Hkl. rewrite Hl. apply stale_names_get; [done|].
      by exists info.
    + apply verdict_Returns in Hv. by rewrite Ht in Hv.
Qed.

Lemma reload_stale_modules_clears_witness :
  let w := mixed_world in
  let w' := (reload_stale_modules w).2 in
  get_stale_modules w = (Returns ["plugin"], w) ∧
  reload_stale_modules w = (Returns tt, w') ∧
  reexecuted w' = ["plugin"] ∧
  get_stale_modules w' = (Returns [], w').
Proof.
  intros w w'.
  destruct (reload_stale_modules_clears w w') as (l & H1 & H2 & _ & H4).
  - solve_wf.
  - reflexivity.
  - split; [reflexivity|]. split; [reflexivity|]. split; [reflexivity|].
    apply H4.
    + intros name t n Hname Ht Hn.
      apply elem_of_cons in Hname as [->|Hname].
      { discriminate Ht. }
      apply list_elem_of_singleton in Hname as ->.
      injection Ht as <-. change (150 ≤ 200 + Z.of_nat n). lia.
    + reflexivity.
    + apply Forall_forall.
      intros e [->|[->|He]%elem_of_cons]%elem_of_cons;
        [by exists false|by exists false|by apply elem_of_nil in He].
    + intros name _. reflexivity.
Defined.
